(** * Blob sidecar verification (consensus-types/blobs)

    A shallow embedding of the two Go files of the package [blobs]:
    [blob.go] (aggregate-proof path: [ValidateBlobsSidecar], [hashToBlsField],
    [computePowers], [polyLinComb], [g1LinComb], [bitReversalPermutation]) and
    the older per-blob file ([VerifyBlobsSidecar], [BlockContainsSidecar],
    [BlockContainsKZGs]).

    Go code can panic, returns errors as values and calls into libraries that
    are not part of the package.  The embedding keeps the three apart:
    - a run of a Go function is a value of [go A]: the calls it made into the
      collaborators, in order, and either its result or the panic that ended it;
    - a Go [error] is an ordinary value of type [error];
    - the collaborators (curve, pairing, digest, serializer, block accessors)
      are the fields of the class [Collaborators]. *)

From Stdlib Require Import ZArith List Lia Bool String DecimalString DecimalZ DecimalPos.
From Stdlib.Strings Require Import Byte.
From stdpp Require Import base list strings numbers.

Set Default Proof Using "Type".

(** ** The Go run-time: panics, traces, pointers, slices *)

Inductive panic : Type :=
| IndexOutOfRange        (* a[i] with i outside [0, len a) *)
| SliceBoundsOutOfRange  (* a[lo:hi] with hi above cap a, or lo above hi *)
| NilDereference         (* a load or store through a nil pointer *)
| MakeLenOutOfRange      (* make([]T, n) with n negative *)
| Explicit (msg : string) (* panic(msg) *).

(** The calls a run records: those into the collaborators of the class
    [Collaborators] below (serializer, digest, point decompression and
    combination, bls.PolyLinComb, evaluation, proof check, commitment of a
    blob).  bytesutil, math/big and the field operations of bls are written
    out as operations of the embedding and leave no record. *)
Inductive call : Type :=
| Call_MarshalSSZ
| Call_Hash
| Call_FromCompressedG1
| Call_LinCombG1
| Call_PolyLinComb
| Call_EvaluatePolyInEvaluationForm
| Call_VerifyKZGProof
| Call_ComputeCommitment.

Inductive result (A : Type) : Type :=
| Done (a : A)
| Panicked (p : panic).
Arguments Done {A} a.
Arguments Panicked {A} p.

Record go (A : Type) : Type := Run { trace : list call; outcome : result A }.
Arguments Run {A} trace outcome.
Arguments trace {A} _.
Arguments outcome {A} _.

Definition go_ret {A} (a : A) : go A := Run [] (Done a).
Definition go_panic {A} (p : panic) : go A := Run [] (Panicked p).
Definition go_bind {A B} (k : A → go B) (m : go A) : go B :=
  match outcome m with
  | Done a => let r := k a in Run (trace m ++ trace r) (outcome r)
  | Panicked p => Run (trace m) (Panicked p)
  end.
Definition called {A} (c : call) (a : A) : go A := Run [c] (Done a).

#[global] Instance go_mret : MRet go := @go_ret.
#[global] Instance go_mbind : MBind go := @go_bind.

(** A Go pointer is nil or points to a cell; the embedding keeps the cell's
    current content with the pointer. *)
Inductive pointer (A : Type) : Type :=
| Nil
| PointsTo (v : A).
Arguments Nil {A}.
Arguments PointsTo {A} v.

Definition deref {A} (p : pointer A) : go A :=
  match p with
  | Nil => go_panic NilDereference
  | PointsTo v => mret v
  end.

Definition store_ptr {A} (p : pointer A) (v : A) : go (pointer A) :=
  match p with
  | Nil => go_panic NilDereference
  | PointsTo _ => mret (PointsTo v)
  end.

(** [a[i]] as an operand and [a[i] = v] as a statement, bounds-checked. *)
Definition index {A} (a : list A) (i : nat) : go A :=
  match a !! i with
  | Some v => mret v
  | None => go_panic IndexOutOfRange
  end.

Definition store {A} (a : list A) (i : nat) (v : A) : go (list A) :=
  if decide (i < length a) then mret (<[i:=v]> a) else go_panic IndexOutOfRange.

(** [make([]T, n)] for a signed [n]. *)
Definition make {A} (zero : A) (n : Z) : go (list A) :=
  if decide (0 ≤ n)%Z then mret (replicate (Z.to_nat n) zero)
  else go_panic MakeLenOutOfRange.

(** A byte slice with its capacity: [visible] are the [len] elements, [spare]
    what the backing array holds between [len] and [cap]. *)
Record slice (A : Type) : Type := Slice { visible : list A; spare : list A }.
Arguments Slice {A} visible spare.
Arguments visible {A} _.
Arguments spare {A} _.

Definition cap {A} (s : slice A) : nat := length (visible s) + length (spare s).

(** [s[lo:hi]]: Go checks [lo <= hi <= cap s], not [len s]. *)
Definition reslice {A} (s : slice A) (lo hi : nat) : go (list A) :=
  if decide (lo ≤ hi ∧ hi ≤ cap s)
  then mret (take (hi - lo) (drop lo (visible s ++ spare s)))
  else go_panic SliceBoundsOutOfRange.

(** [copy(dst[:], src)] into a fixed-size array: the first
    [min (len dst) (len src)] elements are overwritten. *)
Definition copy {A} (dst src : list A) : list A :=
  take (length dst) src ++ drop (length src) dst.

(** Counted loops.  The body either goes on with a new loop state or leaves
    the enclosing function with a [return]. *)
Inductive flow (S R : Type) : Type :=
| Continue (s : S)
| Return (r : R).
Arguments Continue {S R} s.
Arguments Return {S R} r.

Fixpoint for_loop {S R} (todo i : nat) (body : nat → S → go (flow S R)) (s : S)
  : go (flow S R) :=
  match todo with
  | O => mret (Continue s)
  | Datatypes.S todo' =>
      f ← body i s;
      match f with
      | Continue s' => for_loop todo' (Datatypes.S i) body s'
      | Return r => mret (Return r)
      end
  end.

(** The state a loop without [return] ends in. *)
Definition finish {S} (f : flow S Empty_set) : S :=
  match f with
  | Continue s => s
  | Return r => match r with end
  end.

(** ** Errors *)

Inductive error : Type :=
| ErrInvalidBlobSlot
| ErrInvalidBlobBeaconBlockRoot
| ErrInvalidBlobsLength
| ErrEmptyBlobsInSidecar
| ErrInvalidAggregateProof
| ErrCouldNotComputeCommitment
| ErrMissmatchKzgs
| errors_New (msg : string)   (* errors.New(msg) at the place of return *)
| Foreign (code : Z)          (* an error value made by a collaborator *).

(** ** Constants of the protocol *)

Class Constants : Type := {
  (** params.FieldElementsPerBlob *)
  FieldElementsPerBlob : nat;
  (** blsModulus, parsed from bls.ModulusStr by init() *)
  blsModulus : Z
}.

(** ** Bytes and integers *)

#[global] Instance byte_eq_dec : EqDecision byte.
Proof.
  intros a b. destruct (N.eq_dec (Byte.to_N a) (Byte.to_N b)) as [E | E].
  - left. pose proof (Byte.of_to_N a) as Ha. pose proof (Byte.of_to_N b) as Hb.
    rewrite E in Ha. congruence.
  - right. congruence.
Defined.

(** Conversions between a byte and its value in [0, 256). *)
Definition byte_of_Z (z : Z) : byte :=
  match Byte.of_N (Z.to_N (z mod 256)) with
  | Some b => b
  | None => x00
  end.

Definition Z_of_byte (b : byte) : Z := Z.of_N (Byte.to_N b).

(** *** math/big

    math/big is Go's standard library; its operations are written out on [Z]
    from their documentation. *)

(** big.Int.SetBytes: the bytes as a big-endian unsigned integer. *)
Definition SetBytes (bs : list byte) : Z :=
  fold_left (λ acc b, acc * 256 + Z_of_byte b)%Z bs 0%Z.

(** The bytes as a little-endian unsigned integer. *)
Fixpoint le_int (bs : list byte) : Z :=
  match bs with
  | [] => 0
  | b :: bs' => Z_of_byte b + 256 * le_int bs'
  end%Z.

(** The [n] low bytes of [z], lowest first. *)
Fixpoint le_bytes (n : nat) (z : Z) : list byte :=
  match n with
  | O => []
  | S n' => byte_of_Z z :: le_bytes n' (z / 256)
  end.

(** big.Int.String: the decimal numeral. *)
Definition big_String (z : Z) : string := NilZero.string_of_int (Z.to_int z).

(** The integer a decimal numeral stands for; 0 when it is not a numeral. *)
Definition parse_decimal (s : string) : Z :=
  match NilZero.int_of_string s with
  | Some d => Z.of_int d
  | None => 0
  end.

(** big.Int.Exp(x, y, m) for y >= 0 and m > 0, by square and multiply.  The
    code never passes a negative exponent. *)
Fixpoint Exp_pos (x : Z) (y : positive) (m : Z) : Z :=
  match y with
  | xH => x mod m
  | xO y' => let h := Exp_pos x y' m in (h * h) mod m
  | xI y' => let h := Exp_pos x y' m in (((h * h) mod m) * x) mod m
  end%Z.

Definition Exp (x y m : Z) : Z :=
  match y with
  | Zpos p => Exp_pos x p m
  | _ => (1 mod m)%Z
  end.

(** big.Int.Mod(x, m): Euclidean modulus; a zero modulus is a run-time panic. *)
Definition big_Mod (x m : Z) : go Z :=
  if decide (m = 0)%Z then go_panic (Explicit "division by zero")
  else mret (x mod Z.abs m)%Z.

(** big.Int.Div(x, m): Euclidean quotient. *)
Definition big_Div (x m : Z) : go Z :=
  if decide (m = 0)%Z then go_panic (Explicit "division by zero")
  else mret (Z.sgn m * ((x - x mod Z.abs m) / Z.abs m))%Z.

(** ** math/bits *)

Module bits.

(** Modelled from the spec: math/bits is Go's standard library, not part of
    the package.  [reverse_from w x acc] shifts the [w] low bits of [x] into
    [acc], lowest bit first, so that they end up in reversed order. *)
Fixpoint reverse_from (w : nat) (x acc : Z) : Z :=
  match w with
  | O => acc
  | S w' => reverse_from w' (Z.shiftr x 1) (Z.lor (Z.shiftl acc 1) (Z.land x 1))
  end.

(** Modelled from the spec: bits.Reverse64, the value of [x] with its 64
    bits in reversed order; bit [b] of the result is bit [63 - b] of [x]. *)
Definition Reverse64 (x : Z) : Z := reverse_from 64 x 0.

(** Modelled from the spec: bits.Len64, the least number of bits that
    represent [x]; 0 for [x = 0]. *)
Definition Len64 (x : Z) : Z :=
  if decide (x = 0)%Z then 0%Z else (Z.log2 x + 1)%Z.

End bits.

(** ** bytesutil *)

Module bytesutil.

(** Modelled from the spec: encoding/bytesutil is a sibling package whose
    source is not at hand.  Its conversions to a fixed-size array copy the
    slice into a zeroed array, which truncates a longer slice and pads a
    shorter one with zeros at the end. *)
Definition ToBytesN (n : nat) (x : list byte) : list byte :=
  copy (replicate n x00) x.

(** Modelled from the spec: bytesutil.ToBytes32, the conversion to [32]byte. *)
Definition ToBytes32 : list byte → list byte := ToBytesN 32.

(** Modelled from the spec: bytesutil.ToBytes48, the conversion to [48]byte. *)
Definition ToBytes48 : list byte → list byte := ToBytesN 48.

(** Modelled from the spec: bytesutil.ReverseByteOrder, the bytes in reverse
    order (a digest read little-endian instead of big-endian). *)
Definition ReverseByteOrder (x : list byte) : list byte := reverse x.

End bytesutil.

(** ** The field of scalars (package bls of go-kzg) *)

(** bls.Fr, by the integer it stands for. *)
Abbreviation Fr := Z (only parsing).

Module bls.
Section field.
Context {cst : Constants}.

(** Modelled from the spec: the field library is an external collaborator;
    a field element is an integer in [0, P).  [ZERO] is the zero value of
    bls.Fr, what [make] fills a slice with. *)
Definition ZERO : Fr := 0%Z.

(** Modelled from the spec: bls.ONE, the multiplicative identity. *)
Definition ONE : Fr := 1%Z.

(** Modelled from the spec: bls.MulModFr(dst, a, b), the product modulo P. *)
Definition MulModFr (a b : Fr) : Fr := ((a * b) mod blsModulus)%Z.

(** Modelled from the spec: bls.FrFrom32(dst, v), which decodes the 32 bytes
    as a little-endian integer and reports whether it is canonical, that is
    below P; [None] stands for the report [false]. *)
Definition FrFrom32 (v : list byte) : option Fr :=
  let z := le_int v in
  if decide (z < blsModulus)%Z then Some z else None.

(** Modelled from the spec: bls.FrTo32, the 32-byte little-endian encoding. *)
Definition FrTo32 (x : Fr) : list byte := le_bytes 32 x.

(** Modelled from the spec: bls.SetFr(dst, v), which stores the element
    written as the decimal numeral [v] through the pointer [dst].  A store
    through a nil pointer is a run-time panic in Go. *)
Definition SetFr (dst : pointer Fr) (v : string) : go (pointer Fr) :=
  store_ptr dst (parse_decimal v mod blsModulus)%Z.

End field.
End bls.

(** ** Collaborators *)

(** ssz.Marshaler: anything with a MarshalSSZ method. *)
Class Marshaler (A : Type) : Type := MarshalSSZ : A → list byte + error.

Module v1.
(** engine/v1.Blob as blob.go reads it: one flat byte buffer. *)
Record Blob : Type := { Data : slice byte }.
End v1.

Module eth.
Record BlobsSidecar : Type := {
  BeaconBlockRoot : list byte;
  BeaconBlockSlot : Z;
  Blobs : list (pointer v1.Blob);
  AggregatedProof : list byte
}.

Record BlobsAndCommitments : Type := {
  rData_Blobs : list (pointer v1.Blob);
  rData_Commitments : list (list byte)
}.

Record PolynomialAndCommitment : Type := {
  Polynomial : list (list byte);
  Commitment : list byte
}.
End eth.

(** What the package calls but does not define: the digest, the generated
    serializers, the curve and pairing library, the commitment of a blob and
    the block-version test.  A fallible Go call [(v, err)] is a sum. *)
Class Collaborators : Type := {
  G1Point : Type;
  G1_zero : G1Point;                       (* the zero value of the struct *)
  hash_Hash : list byte → list byte;
  marshal_BlobsAndCommitments :: Marshaler eth.BlobsAndCommitments;
  marshal_PolynomialAndCommitment :: Marshaler eth.PolynomialAndCommitment;
  FromCompressedG1 : list byte → G1Point + error;
  ToCompressedG1 : G1Point → list byte;
  LinCombG1 : list G1Point → list Fr → G1Point;
  PolyLinComb : list (list Fr) → list Fr → list Fr + error;
  EvaluatePolyInEvaluationForm : list Fr → Fr → list Fr → Z → Fr;
  VerifyKZGProof : list byte → Fr → Fr → list byte → bool + error;
  ComputeCommitment : list (list byte) → list byte * bool;
  IsPreEIP4844Version : Z → bool;
  is_ErrNilSidecar : error → bool
}.

(** ** blob.go *)

Module Blobs.
Section blob_go.
Context {cst : Constants} {col : Collaborators}.

#[local] Abbreviation N := FieldElementsPerBlob.

(** blob.go:271 *)
Definition isPowerOfTwo (value : Z) : bool :=
  bool_decide (value > 0)%Z
  && bool_decide (Z.land value ((value - 1) mod 2 ^ 64) = 0)%Z.

(** blob.go:257 *)
Definition bitReversalPermutation (l : list Fr) : go (list Fr) :=
  if negb (isPowerOfTwo (Z.of_nat N))
  then go_panic (Explicit "params.FieldElementsPerBlob must be a power of two")
  else
    out ← make bls.ZERO (Z.of_nat N);
    f ← for_loop (length l) 0 (λ i out,
           let j := Z.shiftr (bits.Reverse64 (Z.of_nat i))
                             (65 - bits.Len64 (Z.of_nat N)) in
           v ← index l (Z.to_nat j);
           out' ← store out i v;
           mret (Continue out')) out;
    mret (finish f).

(** blob.go:248 *)
Definition bigToFr (fr : pointer Fr) (b : Z) : go (pointer Fr) :=
  bls.SetFr fr (big_String b).

(** blob.go:30.  The result is the value left in the package variable
    rootsOfUnity. *)
Definition init : go (list Fr) :=
  let one := 1%Z in
  let length := Z.of_nat N in
  let divisor := (blsModulus - one)%Z in
  rem ← big_Mod divisor length;
  if negb (bool_decide (rem = 0)%Z)
  then go_panic (Explicit "MODULUS-1 % FieldElementsPerBlob should equal 0")
  else
    divisor ← big_Div divisor length;
    let rootOfUnity := Exp 7 divisor blsModulus in
    rootsOfUnity ← make bls.ZERO (Z.of_nat N);
    f ← for_loop N 0 (λ i '(current, rootsOfUnity),
           cell ← index rootsOfUnity i;
           fr ← bigToFr (PointsTo cell) current;
           v ← deref fr;
           rootsOfUnity' ← store rootsOfUnity i v;
           current' ← big_Mod (current * rootOfUnity)%Z blsModulus;
           mret (Continue (current', rootsOfUnity'))) (one, rootsOfUnity);
    bitReversalPermutation (finish f).2.

(** blob.go:146 *)
Definition hashToBlsField {A} {msh : Marshaler A} (x : A) : go (pointer Fr + error) :=
  r ← called Call_MarshalSSZ (MarshalSSZ x);
  match r with
  | inr err => mret (inr err)
  | inl m =>
      h ← called Call_Hash (hash_Hash m);
      b ← big_Mod (SetBytes (bytesutil.ReverseByteOrder h)) blsModulus;
      let f : pointer Fr := Nil in          (* var f *bls.Fr *)
      f ← bls.SetFr f (big_String b);
      mret (inl f)
  end.

(** blob.go:176 *)
Definition computePowers (x : pointer Fr) (n : Z) : go (list Fr) :=
  let currentPower := bls.ONE in
  powers ← make bls.ZERO n;
  f ← for_loop (length powers) 0 (λ i '(currentPower, powers),
         powers' ← store powers i currentPower;
         xv ← deref x;
         mret (Continue (bls.MulModFr currentPower xv, powers')))
       (currentPower, powers);
  mret (finish f).2.

(** blob.go:201.  The inner loop runs for j = 0, ..., N inclusive and cuts
    31 bytes per chunk, as written. *)
Definition polyLinComb_chunk (blob : slice byte) (j : nat) (r : list Fr)
  : go (flow (list Fr) (list Fr + error)) :=
  b ← reslice blob (j * 32) (j * 32 + 31);
  _ ← index r j;                                  (* &r[j] *)
  match bls.FrFrom32 (bytesutil.ToBytes32 b) with
  | None => mret (Return (inr (errors_New "invalid value in blob")))
  | Some v => r' ← store r j v; mret (Continue r')
  end.

Definition polyLinComb_blob (blobs : list (pointer v1.Blob)) (i : nat)
    (out : list (list Fr)) : go (flow (list (list Fr)) (list Fr + error)) :=
  r ← make bls.ZERO (Z.of_nat N);
  p ← index blobs i;
  blob ← deref p;
  f ← for_loop (N + 1) 0 (polyLinComb_chunk (v1.Data blob)) r;
  match f with
  | Return e => mret (Return e)
  | Continue r =>
      out' ← store out i r;
      mret (Continue out')
  end.

Definition polyLinComb (blobs : list (pointer v1.Blob)) (scalars : list Fr)
  : go (list Fr + error) :=
  out ← make [] (Z.of_nat (length blobs));
  f ← for_loop (length blobs) 0 (polyLinComb_blob blobs) out;
  match f with
  | Return e => mret e
  | Continue out => called Call_PolyLinComb (PolyLinComb out scalars)
  end.

(** blob.go:231 *)
Definition g1LinComb_point (points : list (list byte)) (i : nat)
    (g1s : list G1Point) : go (flow (list G1Point) error) :=
  p ← index points i;
  r ← called Call_FromCompressedG1 (FromCompressedG1 p);
  match r with
  | inr err => mret (Return err)
  | inl g1 => g1s' ← store g1s i g1; mret (Continue g1s')
  end.

Definition g1LinComb (points : list (list byte)) (scalars : list Fr)
  : go (list byte + error) :=
  if negb (bool_decide (length points = length scalars))
  then mret (inr (errors_New "points and scalars have to be the same length"))
  else
    g1s ← make G1_zero (Z.of_nat (length points));
    f ← for_loop (length g1s) 0 (g1LinComb_point points) g1s;
    match f with
    | Return err => mret (inr err)
    | Continue g1s =>
        sum ← called Call_LinCombG1 (LinCombG1 g1s scalars);
        mret (inl (ToCompressedG1 sum))
    end.

(** blob.go:75.  [rootsOfUnity] is the package variable set by [init]. *)
Definition ValidateBlobsSidecar (rootsOfUnity : list Fr) (slot : Z)
    (root : list byte) (commitments : list (list byte))
    (sidecar : pointer eth.BlobsSidecar) : go (option error) :=
  sidecar ← deref sidecar;
  if negb (bool_decide (slot = eth.BeaconBlockSlot sidecar)) then
    mret (Some ErrInvalidBlobSlot)
  else if negb (bool_decide
                  (root = bytesutil.ToBytes32 (eth.BeaconBlockRoot sidecar))) then
    mret (Some ErrInvalidBlobBeaconBlockRoot)
  else if negb (bool_decide
                  (length commitments = length (eth.Blobs sidecar))) then
    mret (Some ErrInvalidBlobsLength)
  else
    let rData := {| eth.rData_Blobs := eth.Blobs sidecar;
                    eth.rData_Commitments := commitments |} in
    r ← hashToBlsField rData;
    match r with
    | inr err => mret (Some err)
    | inl r =>
    let numberOfBlobs := length (eth.Blobs sidecar) in
    if bool_decide (numberOfBlobs = 0) then mret (Some ErrEmptyBlobsInSidecar)
    else
    rPowers ← computePowers r (Z.of_nat numberOfBlobs);
    c ← g1LinComb commitments rPowers;
    match c with
    | inr err => mret (Some err)
    | inl aggregatedPolyCommitment =>
    p ← polyLinComb (eth.Blobs sidecar) rPowers;
    match p with
    | inr err => mret (Some err)
    | inl aggregatedPoly =>
    polynomial ← make [] (Z.of_nat N);
    f ← for_loop N 0 (λ i polynomial,
           e ← index aggregatedPoly i;
           let v := bls.FrTo32 e in
           polynomial' ← store polynomial i v;
           mret (Continue polynomial')) polynomial;
    let xData := {| eth.Polynomial := finish f;
                    eth.Commitment := aggregatedPolyCommitment |} in
    x ← hashToBlsField xData;
    match x with
    | inr err => mret (Some err)
    | inl x =>
    xv ← deref x;
    y ← called Call_EvaluatePolyInEvaluationForm
          (EvaluatePolyInEvaluationForm aggregatedPoly xv rootsOfUnity 0);
    b ← called Call_VerifyKZGProof
          (VerifyKZGProof (bytesutil.ToBytes48 aggregatedPolyCommitment) xv y
             (bytesutil.ToBytes48 (eth.AggregatedProof sidecar)));
    match b with
    | inr err => mret (Some err)
    | inl b => if negb b then mret (Some ErrInvalidAggregateProof) else mret None
    end end end end end.

End blob_go.
End Blobs.

(** ** The per-blob file (an earlier revision of the package) *)

Module PerBlob.

(** The sidecar as this file reads it: a blob is a list of field-element
    byte strings. *)
Record Blob : Type := { Blob_ : list (list byte) }.

Record BlobsSidecar : Type := {
  BeaconBlockRoot : list byte;
  BeaconBlockSlot : Z;
  Blobs : list (pointer Blob)
}.

(** interfaces.BeaconBlock and interfaces.SignedBeaconBlock through the
    accessors the file calls: Version(), Body().BlobKzgs(), Block(),
    SideCar(). *)
Record BeaconBlock : Type := {
  Version : Z;
  Body_BlobKzgs : list (list byte) * option error
}.

Record SignedBeaconBlock : Type := {
  Block : BeaconBlock;
  SideCar : pointer BlobsSidecar * option error
}.

Section per_blob.
Context {cst : Constants} {col : Collaborators}.

#[local] Abbreviation N := FieldElementsPerBlob.

(** Lines 43-47: one round of the inner loop, [blob[i] = f] with [f] the
    32-byte array [copy] filled from chunk [b]. *)
Definition decode_chunk (chunks : list (list byte)) (i : nat)
    (blob : list (list byte)) : go (flow (list (list byte)) Empty_set) :=
  b ← index chunks i;
  let f := copy (replicate 32 x00) b in
  blob' ← store blob i f;
  mret (Continue blob').

(** Lines 42-47: the gethType.Blob built for one sidecar blob. *)
Definition decode_blob (chunks : list (list byte)) : go (list (list byte)) :=
  let blob := replicate N (replicate 32 x00) in      (* var blob gethType.Blob *)
  f ← for_loop (length chunks) 0 (decode_chunk chunks) blob;
  mret (finish f).

(** Lines 42-48: the commitment recomputed from one sidecar blob, with the
  flag ComputeCommitment returns. *)
Definition blob_to_kzg (p : pointer Blob) : go (list byte * bool) :=
  msg ← deref p;
  blob ← decode_blob (Blob_ msg);
  called Call_ComputeCommitment (ComputeCommitment blob).

(** Lines 41-55: one round of the outer loop. *)
Definition VerifyBlobsSidecar_round (expectedKZGs : list (list byte))
    (blobsSidecar : BlobsSidecar) (i : nat) (_ : unit) : go (flow unit error) :=
  expectedKzg ← index expectedKZGs i;
  p ← index (Blobs blobsSidecar) i;
  c ← blob_to_kzg p;
  let '(kzg, ok) := c in
  if negb ok then mret (Return ErrCouldNotComputeCommitment)
  else if negb (bool_decide (kzg = expectedKzg)) then mret (Return ErrMissmatchKzgs)
  else mret (Continue tt).

(** Line 30 *)
Definition VerifyBlobsSidecar (slot : Z) (beaconBlockRoot : list byte)
    (expectedKZGs : list (list byte)) (blobsSidecar : pointer BlobsSidecar)
  : go (option error) :=
  blobsSidecar ← deref blobsSidecar;
  if negb (bool_decide (slot = BeaconBlockSlot blobsSidecar)) then
    mret (Some ErrInvalidBlobSlot)
  else if negb (bool_decide
            (beaconBlockRoot = bytesutil.ToBytes32 (BeaconBlockRoot blobsSidecar))) then
    mret (Some ErrInvalidBlobBeaconBlockRoot)
  else if negb (bool_decide (length expectedKZGs = length (Blobs blobsSidecar))) then
    mret (Some ErrInvalidBlobsLength)
  else
    f ← for_loop (length expectedKZGs) 0
          (VerifyBlobsSidecar_round expectedKZGs blobsSidecar) tt;
    match f with
    | Return err => mret (Some err)
    | Continue _ => mret None
    end.

(** Line 78 *)
Definition BlockContainsKZGs (b : BeaconBlock) : bool * option error :=
  if IsPreEIP4844Version (Version b) then (false, None)
  else
    let '(blobKzgs, err) := Body_BlobKzgs b in
    match err with
    | Some err => (false, Some err)
    | None => (negb (bool_decide (length blobKzgs = 0)), None)
    end.

(** Line 60 *)
Definition BlockContainsSidecar (b : SignedBeaconBlock) : bool * option error :=
  let '(hasKzg, err) := BlockContainsKZGs (Block b) in
  match err with
  | Some err => (false, Some err)
  | None =>
      if negb hasKzg then (false, None)
      else
        let '(_, err) := SideCar b in
        match err with
        | Some err =>
            if is_ErrNilSidecar err then (false, None) else (false, Some err)
        | None => (true, None)
        end
  end.

End per_blob.
End PerBlob.

(** ** A configuration to run the code on *)

Module Mainnet.

(** Modelled from the spec: params.FieldElementsPerBlob and bls.ModulusStr
    are constants of go-ethereum and go-kzg.  EIP-4844 fixes them as 4096
    field elements per blob and the order of the BLS12-381 scalar field. *)
#[export] Instance constants : Constants := {|
  FieldElementsPerBlob := 4096;
  blsModulus :=
    52435875175126190479447740508185965837690552500527637822603658699938581184513
|}.

(** A blob of 4096 * 32 zero bytes in a buffer of exactly that capacity. *)
Definition zero_blob : v1.Blob :=
  {| v1.Data := Slice (replicate (4096 * 32) x00) [] |}.

End Mainnet.

Module Stub.

(** Stand-ins for the collaborators, to have closed terms to evaluate.  They
    fix the interface only: points are their 48-byte encodings and
    decompress when they have 48 bytes, the serializers concatenate and
    never fail, the digest keeps 32 bytes, every proof verifies, blocks
    before version 3 predate the upgrade.  The general statements below
    quantify over every instance of [Collaborators]; this one only serves
    the runs on concrete inputs. *)
Definition flat (blobs : list (pointer v1.Blob)) : list byte :=
  flat_map (λ p, match p with
                 | Nil => []
                 | PointsTo b => visible (v1.Data b)
                 end) blobs.

#[export] Instance collaborators : Collaborators := {|
  G1Point := list byte;
  G1_zero := [];
  hash_Hash := bytesutil.ToBytes32;
  marshal_BlobsAndCommitments :=
    λ x, inl (flat (eth.rData_Blobs x) ++ concat (eth.rData_Commitments x));
  marshal_PolynomialAndCommitment :=
    λ x, inl (concat (eth.Polynomial x) ++ eth.Commitment x);
  FromCompressedG1 :=
    λ p, if bool_decide (length p = 48) then inl p else inr (Foreign 1);
  ToCompressedG1 := bytesutil.ToBytes48;
  LinCombG1 := λ _ _, [];
  PolyLinComb := λ out _, inl (default [] (head out));
  EvaluatePolyInEvaluationForm := λ _ _ _ _, 0%Z;
  VerifyKZGProof := λ _ _ _ _, inl true;
  ComputeCommitment := λ blob, (bytesutil.ToBytes48 (concat blob), true);
  IsPreEIP4844Version := λ v, bool_decide (v < 3)%Z;
  is_ErrNilSidecar := λ e, match e with Foreign 404 => true | _ => false end
|}.

End Stub.

(** ** Reference definitions the statements compare the code with *)

(** The bits of [i] at positions 0, ..., w-1, lowest first. *)
Definition to_bits (w : nat) (i : Z) : list bool :=
  (λ b, Z.testbit i (Z.of_nat b)) <$> seq 0 w.

Fixpoint of_bits (bs : list bool) : Z :=
  match bs with
  | [] => 0
  | b :: bs' => 2 * of_bits bs' + Z.b2z b
  end%Z.

(** [i] written on [w] bits, read backwards. *)
Definition reverse_bits (w : nat) (i : Z) : Z := of_bits (reverse (to_bits w i)).

(** The least number of bits that index a sequence of [n] elements. *)
Definition bit_width (n : nat) : nat := Z.to_nat (Z.log2_up (Z.of_nat n)).

(** The field elements of a sidecar blob, as the protocol reads it: every
    chunk as a 32-byte string, cut after 32 bytes or filled with zeros, and
    all-zero elements up to the number of field elements per blob. *)
Definition field_element (b : list byte) : list byte :=
  take 32 b ++ replicate (32 - length b) x00.

Definition field_elements (n : nat) (chunks : list (list byte))
  : list (list byte) :=
  (field_element <$> chunks) ++ replicate (n - length chunks) (replicate 32 x00).

(** The commitment a sidecar blob is recomputed to: what the primitive
    "commit to evaluation-form polynomial" answers on the blob's field
    elements.  There is none for a nil blob or one with too many chunks. *)
Definition recomputed_commitment {cst : Constants} {col : Collaborators}
    (p : pointer PerBlob.Blob) : option (list byte * bool) :=
  match p with
  | Nil => None
  | PointsTo msg =>
      if decide (length (PerBlob.Blob_ msg) ≤ FieldElementsPerBlob)
      then Some (ComputeCommitment
                   (field_elements FieldElementsPerBlob (PerBlob.Blob_ msg)))
      else None
  end.

(** * Properties *)

(** ** Runs on small inputs *)

Example Reverse64_one : bits.Reverse64 1 = (2 ^ 63)%Z.
Proof. reflexivity. Qed.

Example Len64_4096 : bits.Len64 4096 = 13%Z.
Proof. reflexivity. Qed.

Example reverse_bits_3_of_12 : reverse_bits 12 3 = 3072%Z.
Proof. reflexivity. Qed.

Example isPowerOfTwo_4096 : Blobs.isPowerOfTwo 4096 = true.
Proof. reflexivity. Qed.

Example isPowerOfTwo_zero : Blobs.isPowerOfTwo 0 = false.
Proof. reflexivity. Qed.

Example isPowerOfTwo_4095 : Blobs.isPowerOfTwo 4095 = false.
Proof. reflexivity. Qed.

Example computePowers_3_5 :
  Blobs.computePowers (cst := Mainnet.constants) (PointsTo 3%Z) 5
  = mret [1; 3; 9; 27; 81]%Z.
Proof. vm_compute. reflexivity. Qed.

Example computePowers_nil_0 :
  Blobs.computePowers (cst := Mainnet.constants) Nil 0 = mret [].
Proof. reflexivity. Qed.

Example computePowers_nil_1 :
  Blobs.computePowers (cst := Mainnet.constants) Nil 1 = go_panic NilDereference.
Proof. reflexivity. Qed.

Example ToBytes32_short :
  bytesutil.ToBytes32 [x01; x02] = [x01; x02] ++ replicate 30 x00.
Proof. reflexivity. Qed.

Example FrFrom32_not_canonical :
  bls.FrFrom32 (cst := Mainnet.constants) (replicate 32 xff) = None.
Proof. vm_compute. reflexivity. Qed.

Example reslice_within_capacity :
  reslice (Slice [x01; x02] [x03; x04]) 1 4 = mret [x02; x03; x04].
Proof. reflexivity. Qed.

Example reslice_beyond_capacity :
  reslice (Slice [x01; x02] [x03; x04]) 1 5 = go_panic SliceBoundsOutOfRange.
Proof. reflexivity. Qed.

Example g1LinComb_two_points :
  Blobs.g1LinComb (col := Stub.collaborators)
    [replicate 48 x00; replicate 48 x01] [1; 2]%Z
  = Run [Call_FromCompressedG1; Call_FromCompressedG1; Call_LinCombG1]
        (Done (inl (replicate 48 x00))).
Proof. vm_compute. reflexivity. Qed.

Example VerifyBlobsSidecar_wrong_slot :
  PerBlob.VerifyBlobsSidecar (cst := Mainnet.constants)
    (col := Stub.collaborators) 8 (replicate 32 x00) []
    (PointsTo {| PerBlob.BeaconBlockRoot := replicate 32 x00;
                 PerBlob.BeaconBlockSlot := 7;
                 PerBlob.Blobs := [] |})
  = mret (Some ErrInvalidBlobSlot).
Proof. reflexivity. Qed.

Example VerifyBlobsSidecar_mismatch :
  PerBlob.VerifyBlobsSidecar (cst := Mainnet.constants)
    (col := Stub.collaborators) 7 (replicate 32 x00) [replicate 48 x01]
    (PointsTo {| PerBlob.BeaconBlockRoot := replicate 32 x00;
                 PerBlob.BeaconBlockSlot := 7;
                 PerBlob.Blobs :=
                   [PointsTo {| PerBlob.Blob_ := [replicate 32 x00] |}] |})
  = Run [Call_ComputeCommitment] (Done (Some ErrMissmatchKzgs)).
Proof. vm_compute. reflexivity. Qed.

Example ValidateBlobsSidecar_wrong_length :
  Blobs.ValidateBlobsSidecar (cst := Mainnet.constants)
    (col := Stub.collaborators) [] 7 (replicate 32 x00) [replicate 48 x00]
    (PointsTo {| eth.BeaconBlockRoot := replicate 32 x00;
                 eth.BeaconBlockSlot := 7;
                 eth.Blobs := [];
                 eth.AggregatedProof := replicate 48 x00 |})
  = mret (Some ErrInvalidBlobsLength).
Proof. reflexivity. Qed.

Example BlockContainsSidecar_nil_sidecar :
  PerBlob.BlockContainsSidecar (col := Stub.collaborators)
    {| PerBlob.Block :=
         {| PerBlob.Version := 3;
            PerBlob.Body_BlobKzgs := ([replicate 48 x00], None) |};
       PerBlob.SideCar := (Nil, Some (Foreign 404)) |}
  = (false, None).
Proof. reflexivity. Qed.

(** ** Runs *)

Lemma outcome_bind {A B} (m : go A) (k : A → go B) :
  outcome (m ≫= k) =
  match outcome m with
  | Done a => outcome (k a)
  | Panicked p => Panicked p
  end.
Proof. unfold mbind, go_mbind, go_bind. by destruct (outcome m). Qed.

Lemma trace_bind {A B} (m : go A) (k : A → go B) :
  trace (m ≫= k) =
  match outcome m with
  | Done a => trace m ++ trace (k a)
  | Panicked _ => trace m
  end.
Proof. unfold mbind, go_mbind, go_bind. by destruct (outcome m). Qed.

Lemma bind_ret {A B} (a : A) (k : A → go B) : (mret a ≫= k) = k a.
Proof. unfold mbind, go_mbind, go_bind. simpl. by destruct (k a). Qed.

Lemma bind_called {A B} (c : call) (a : A) (k : A → go B) :
  (called c a ≫= k) = Run (c :: trace (k a)) (outcome (k a)).
Proof. done. Qed.

Lemma index_Some {A} (a : list A) i v : a !! i = Some v → index a i = mret v.
Proof. unfold index. by intros ->. Qed.

Lemma index_None {A} (a : list A) i :
  a !! i = None → index a i = go_panic IndexOutOfRange.
Proof. unfold index. by intros ->. Qed.

Lemma store_lt {A} (a : list A) i v :
  i < length a → store a i v = mret (<[i:=v]> a).
Proof. unfold store. intros. by rewrite decide_True. Qed.

Lemma make_nat {A} (zero : A) (n : nat) :
  make zero (Z.of_nat n) = mret (replicate n zero).
Proof.
  unfold make. rewrite decide_True by lia. by rewrite Nat2Z.id.
Qed.

(** ** Loops *)

Lemma for_loop_step {S R} todo i (body : nat → S → go (flow S R)) s :
  outcome (for_loop (Datatypes.S todo) i body s) =
  match outcome (body i s) with
  | Done (Continue s') => outcome (for_loop todo (Datatypes.S i) body s')
  | Done (Return r) => Done (Return r)
  | Panicked p => Panicked p
  end.
Proof.
  simpl. rewrite outcome_bind.
  destruct (outcome (body i s)) as [[s' | r] | p]; done.
Qed.

(** A loop of rounds that call nothing and all go on. *)
Lemma for_loop_pure {S R} (I : nat → S → Prop) todo
    (body : nat → S → go (flow S R)) :
  ∀ i s,
    I i s →
    (∀ k s, i ≤ k < i + todo → I k s →
            ∃ s', body k s = mret (Continue s') ∧ I (Datatypes.S k) s') →
    ∃ s', for_loop todo i body s = mret (Continue s') ∧ I (i + todo) s'.
Proof.
  induction todo as [| todo IH]; intros i s Hi Hbody.
  - exists s. rewrite Nat.add_0_r. done.
  - destruct (Hbody i s ltac:(lia) Hi) as (s1 & Hs1 & HI1).
    destruct (IH (Datatypes.S i) s1 HI1) as (s' & Hs' & HI').
    { intros k s2 Hk. apply Hbody. lia. }
    exists s'. simpl. rewrite Hs1, bind_ret. split; [done |].
    by replace (i + Datatypes.S todo) with (Datatypes.S i + todo) by lia.
Qed.

(** A loop whose rounds all go on ends in a state that satisfies what the
    rounds preserve. *)
Lemma for_loop_continues {S R} (I : nat → S → Prop) todo
    (body : nat → S → go (flow S R)) :
  ∀ i s,
    I i s →
    (∀ k s, i ≤ k < i + todo → I k s →
            ∃ s', outcome (body k s) = Done (Continue s') ∧ I (Datatypes.S k) s') →
    ∃ s', outcome (for_loop todo i body s) = Done (Continue s') ∧ I (i + todo) s'.
Proof.
  induction todo as [| todo IH]; intros i s Hi Hbody.
  - exists s. rewrite Nat.add_0_r. done.
  - destruct (Hbody i s ltac:(lia) Hi) as (s1 & Hs1 & HI1).
    destruct (IH (Datatypes.S i) s1 HI1) as (s' & Hs' & HI').
    { intros k s2 Hk. apply Hbody. lia. }
    exists s'. rewrite for_loop_step, Hs1. split; [done |].
    by replace (i + Datatypes.S todo) with (Datatypes.S i + todo) by lia.
Qed.

(** A loop leaves at the first round that does not go on. *)
Lemma for_loop_exits {S R} (I : nat → S → Prop) todo
    (body : nat → S → go (flow S R)) stop (o : result (flow S R)) :
  ∀ i s,
    I i s →
    i ≤ stop < i + todo →
    (∀ k s, i ≤ k < stop → I k s →
            ∃ s', outcome (body k s) = Done (Continue s') ∧ I (Datatypes.S k) s') →
    (∀ s, I stop s → outcome (body stop s) = o) →
    (∀ s', o ≠ Done (Continue s')) →
    outcome (for_loop todo i body s) = o.
Proof.
  induction todo as [| todo IH]; intros i s Hi Hstop Hbody Hlast Ho; [lia |].
  rewrite for_loop_step.
  destruct (decide (i = stop)) as [-> | Hne].
  - rewrite (Hlast s Hi). destruct o as [[s' | r] | p]; [| done..].
    by destruct (Ho s').
  - destruct (Hbody i s ltac:(lia) Hi) as (s1 & -> & HI1).
    apply (IH (Datatypes.S i) s1 HI1); [lia | | done..].
    intros k s2 Hk. apply Hbody. lia.
Qed.

(** ** computePowers *)

Section computePowers_facts.
Context {cst : Constants}.

Lemma MulModFr_pow (x : Z) (k : nat) :
  bls.MulModFr (x ^ Z.of_nat k mod blsModulus)%Z x
  = (x ^ Z.of_nat (Datatypes.S k) mod blsModulus)%Z.
Proof.
  unfold bls.MulModFr. rewrite Nat2Z.inj_succ, Z.pow_succ_r by lia.
  rewrite Zmult_mod_idemp_l. f_equal. lia.
Qed.

(** C6. For n >= 1 and a field element x (zero included), computePowers
    returns a sequence of length n that starts with 1 and holds x^k mod P
    at every index k below n. *)
Theorem computePowers_powers (x : Fr) (n : Z) :
  (1 < blsModulus)%Z →
  (0 ≤ x < blsModulus)%Z →
  (1 ≤ n)%Z →
  ∃ powers,
    Blobs.computePowers (PointsTo x) n = mret powers
    ∧ Z.of_nat (length powers) = n
    ∧ powers !! 0 = Some 1%Z
    ∧ ∀ k, (Z.of_nat k < n)%Z →
           powers !! k = Some (x ^ Z.of_nat k mod blsModulus)%Z.
Proof.
  intros HP Hx Hn. unfold Blobs.computePowers.
  unfold make. rewrite decide_True by lia. rewrite bind_ret, length_replicate.
  set (m := Z.to_nat n).
  destruct (for_loop_pure (R := Empty_set)
    (λ k '(cur, powers),
       cur = (x ^ Z.of_nat k mod blsModulus)%Z
       ∧ length powers = m
       ∧ ∀ j, j < k → powers !! j = Some (x ^ Z.of_nat j mod blsModulus)%Z)
    m
    (λ i '(currentPower, powers),
       powers' ← store powers i currentPower;
       xv ← deref (PointsTo x);
       mret (Continue (bls.MulModFr currentPower xv, powers')))
    0 (bls.ONE, replicate m bls.ZERO)) as ([cur powers] & Hrun & _ & Hlen & Hget).
  - split; [| split].
    + simpl. rewrite Z.mod_small; [done | lia].
    + apply length_replicate.
    + intros j Hj. lia.
  - intros k [cur powers] Hk (-> & Hlen & Hget).
    eexists (_, _). split.
    + rewrite store_lt by lia. unfold deref. by rewrite !bind_ret.
    + split; [apply MulModFr_pow |]. split; [by rewrite length_insert |].
      intros j Hj. destruct (decide (j = k)) as [-> | Hne].
      * apply list_lookup_insert_eq. lia.
      * rewrite list_lookup_insert_ne by done. apply Hget. lia.
  - exists powers. rewrite Hrun, bind_ret. simpl. split; [done |].
    split; [subst m; lia |]. split.
    + rewrite (Hget 0) by (subst m; lia). simpl. rewrite Z.mod_small; [done | lia].
    + intros k Hk. apply Hget. subst m. lia.
Qed.

End computePowers_facts.

(** C6 on the protocol's modulus, for x = 0 and n = 4. *)
Lemma computePowers_powers_run :
  ∃ powers,
    Blobs.computePowers (cst := Mainnet.constants) (PointsTo 0%Z) 4 = mret powers
    ∧ Z.of_nat (length powers) = 4%Z
    ∧ powers !! 0 = Some 1%Z
    ∧ ∀ k, (Z.of_nat k < 4)%Z →
           powers !! k
           = Some (0 ^ Z.of_nat k mod blsModulus (Constants := Mainnet.constants))%Z.
Proof.
  apply (computePowers_powers (cst := Mainnet.constants) 0 4).
  - vm_compute. reflexivity.
  - split; vm_compute; [discriminate | reflexivity].
  - vm_compute. discriminate.
Defined.

(** ** Bits *)

Lemma to_bits_lookup w i n :
  to_bits w i !! n = if decide (n < w) then Some (Z.testbit i (Z.of_nat n)) else None.
Proof.
  unfold to_bits. rewrite list_lookup_fmap. case_decide.
  - by rewrite lookup_seq_lt.
  - by rewrite lookup_seq_ge by lia.
Qed.

Lemma length_to_bits w i : length (to_bits w i) = w.
Proof. unfold to_bits. by rewrite length_fmap, length_seq. Qed.

Lemma of_bits_testbit bs : ∀ n, Z.testbit (of_bits bs) (Z.of_nat n) = default false (bs !! n).
Proof.
  induction bs as [| b bs IH]; intros n; simpl.
  - apply Z.testbit_0_l.
  - destruct n as [| n].
    + apply Z.testbit_0_r.
    + rewrite Nat2Z.inj_succ, Z.testbit_succ_r by lia. apply IH.
Qed.

Lemma reverse_bits_testbit w i n :
  Z.testbit (reverse_bits w i) (Z.of_nat n)
  = if decide (n < w) then Z.testbit i (Z.of_nat (w - 1 - n)) else false.
Proof.
  unfold reverse_bits. rewrite of_bits_testbit. case_decide as Hn.
  - rewrite reverse_lookup by (by rewrite length_to_bits).
    rewrite length_to_bits, to_bits_lookup, decide_True by lia.
    simpl. do 2 f_equal. lia.
  - rewrite lookup_ge_None_2; [done |]. rewrite length_reverse, length_to_bits. lia.
Qed.

Lemma of_bits_nonneg bs : (0 ≤ of_bits bs)%Z.
Proof. induction bs as [| [] bs IH]; simpl; lia. Qed.

Lemma of_bits_bound bs : (of_bits bs < 2 ^ Z.of_nat (length bs))%Z.
Proof.
  induction bs as [| b bs IH]; simpl length; [simpl; lia |].
  rewrite Nat2Z.inj_succ, Z.pow_succ_r by lia. simpl. destruct b; simpl; lia.
Qed.

Lemma reverse_bits_range w i : (0 ≤ reverse_bits w i < 2 ^ Z.of_nat w)%Z.
Proof.
  unfold reverse_bits. split; [apply of_bits_nonneg |].
  pose proof (of_bits_bound (reverse (to_bits w i))) as Hb.
  by rewrite length_reverse, length_to_bits in Hb.
Qed.

Lemma testbit_high_false i w n :
  (0 ≤ i < 2 ^ Z.of_nat w)%Z → w ≤ n → Z.testbit i (Z.of_nat n) = false.
Proof.
  intros Hi Hn. destruct (decide (i = 0%Z)) as [-> | Hne]; [apply Z.testbit_0_l |].
  apply Z.bits_above_log2; [lia |].
  assert (Z.log2 i < Z.of_nat w)%Z by (apply Z.log2_lt_pow2; lia). lia.
Qed.

(** Reversing twice on the same width gives the index back. *)
Lemma reverse_bits_involutive w i :
  (0 ≤ i < 2 ^ Z.of_nat w)%Z → reverse_bits w (reverse_bits w i) = i.
Proof.
  intros Hi. apply Z.bits_inj'. intros n Hn.
  rewrite <- (Z2Nat.id n) by lia. set (m := Z.to_nat n).
  rewrite reverse_bits_testbit. case_decide as Hm.
  - rewrite reverse_bits_testbit, decide_True by lia. do 2 f_equal. lia.
  - symmetry. apply (testbit_high_false i w); [done | lia].
Qed.

Lemma reverse_from_testbit w : ∀ x acc n,
  Z.testbit (bits.reverse_from w x acc) (Z.of_nat n)
  = if decide (n < w) then Z.testbit x (Z.of_nat (w - 1 - n))
    else Z.testbit acc (Z.of_nat (n - w)).
Proof.
  induction w as [| w IH]; intros x acc n; cbn [bits.reverse_from].
  - rewrite decide_False by lia. do 2 f_equal. lia.
  - rewrite IH. destruct (decide (n < w)) as [Hlt | Hge].
    + rewrite decide_True by lia. rewrite Z.shiftr_spec by lia. f_equal. lia.
    + rewrite Z.lor_spec, Z.shiftl_spec, Z.land_spec by lia.
      destruct (decide (n = w)) as [-> | Hne].
      * rewrite decide_True by lia.
        replace (Z.of_nat (w - w) - 1)%Z with (-1)%Z by lia.
        rewrite Z.testbit_neg_r by lia.
        replace (Z.of_nat (w - w)) with 0%Z by lia.
        replace (Z.of_nat (Datatypes.S w - 1 - w)) with 0%Z by lia.
        simpl. by rewrite andb_true_r.
      * rewrite decide_False by lia.
        replace (Z.testbit 1 (Z.of_nat (n - w))) with false.
        -- rewrite andb_false_r, orb_false_r. f_equal. lia.
        -- symmetry. apply Z.bits_above_log2; simpl; lia.
Qed.

(** The index the code computes, [Reverse64 i >> (64 - w)], is [i] reversed
    on [w] bits. *)
Lemma Reverse64_shiftr w i :
  w ≤ 64 → (0 ≤ i)%Z →
  Z.shiftr (bits.Reverse64 i) (64 - Z.of_nat w) = reverse_bits w i.
Proof.
  intros Hw Hi. apply Z.bits_inj'. intros n Hn.
  rewrite <- (Z2Nat.id n) by lia. set (m := Z.to_nat n).
  rewrite Z.shiftr_spec by lia. unfold bits.Reverse64.
  replace (Z.of_nat m + (64 - Z.of_nat w))%Z with (Z.of_nat (m + (64 - w))) by lia.
  rewrite reverse_from_testbit, reverse_bits_testbit.
  destruct (decide (m < w)) as [Hlt | Hge].
  - rewrite decide_True by lia. do 2 f_equal. lia.
  - destruct (decide (m + (64 - w) < 64)); [lia |]. apply Z.testbit_0_l.
Qed.

(** ** bitReversalPermutation *)

Lemma isPowerOfTwo_pow2 (v : Z) :
  (v < 2 ^ 64)%Z → Blobs.isPowerOfTwo v = true →
  (0 < v)%Z ∧ v = (2 ^ Z.log2 v)%Z.
Proof.
  unfold Blobs.isPowerOfTwo. intros Hv Hp.
  apply andb_true_iff in Hp as [Hpos Hland].
  apply bool_decide_eq_true in Hpos, Hland.
  split; [lia |].
  rewrite Z.mod_small in Hland by lia.
  pose proof (Z.log2_spec v ltac:(lia)) as Hlog.
  pose proof (Z.log2_nonneg v) as Hnn.
  destruct (decide (v = 2 ^ Z.log2 v)%Z) as [| Hne]; [done | exfalso].
  assert (Z.log2 (v - 1) = Z.log2 v) as Hpred by (apply Z.log2_unique; lia).
  assert (Z.testbit (Z.land v (v - 1)) (Z.log2 v) = true) as Hbit.
  { rewrite Z.land_spec, Z.bit_log2 by lia.
    pose proof (Z.bit_log2 (v - 1) ltac:(lia)) as Hb.
    rewrite Hpred in Hb. by rewrite Hb. }
  rewrite Hland, Z.testbit_0_l in Hbit. done.
Qed.

Lemma Len64_pow2 (w : nat) : bits.Len64 (2 ^ Z.of_nat w) = (Z.of_nat w + 1)%Z.
Proof.
  unfold bits.Len64. rewrite decide_False by lia. by rewrite Z.log2_pow2 by lia.
Qed.

Lemma bit_width_pow2 (n w : nat) : Z.of_nat n = (2 ^ Z.of_nat w)%Z → bit_width n = w.
Proof.
  intros Hn. unfold bit_width. rewrite Hn, Z.log2_up_pow2 by lia. lia.
Qed.

Section bitReversal_facts.
Context {cst : Constants}.

#[local] Abbreviation N := FieldElementsPerBlob.

Lemma bitReversalPermutation_run (l : list Z) (w : nat) :
  Z.of_nat N = (2 ^ Z.of_nat w)%Z → w ≤ 63 → length l = N →
  ∃ out,
    Blobs.bitReversalPermutation l = mret out
    ∧ length out = N
    ∧ ∀ i, i < N → out !! i = l !! Z.to_nat (reverse_bits w (Z.of_nat i)).
Proof.
  intros HN Hw Hl. unfold Blobs.bitReversalPermutation.
  assert (Blobs.isPowerOfTwo (Z.of_nat N) = true) as ->.
  { unfold Blobs.isPowerOfTwo. rewrite HN.
    assert (2 ^ Z.of_nat w ≤ 2 ^ 63)%Z by (apply Z.pow_le_mono_r; lia).
    rewrite Z.mod_small by lia.
    rewrite andb_true_iff, !bool_decide_eq_true. split; [lia |].
    apply Z.bits_inj'. intros n Hn. rewrite Z.land_spec, Z.testbit_0_l.
    destruct (decide (n = Z.of_nat w)) as [-> | Hne].
    - replace (2 ^ Z.of_nat w - 1)%Z with (Z.ones (Z.of_nat w)) by (rewrite Z.ones_equiv; lia).
      rewrite Z.ones_spec_high by lia. apply andb_false_r.
    - rewrite Z.pow2_bits_false by lia. done. }
  simpl negb. cbv iota. rewrite make_nat, bind_ret, Hl.
  rewrite HN, Len64_pow2.
  match goal with |- context [for_loop N 0 ?body ?s] =>
    destruct (for_loop_pure (R := Empty_set)
      (λ k out, length out = N
                ∧ ∀ j, j < k → out !! j = l !! Z.to_nat (reverse_bits w (Z.of_nat j)))
      N body 0 s) as (out & Hrun & Hlen & Hget)
  end.
  - split; [apply length_replicate | intros; lia].
  - intros k out Hk [Hlen Hget].
    replace (65 - (Z.of_nat w + 1))%Z with (64 - Z.of_nat w)%Z by lia.
    rewrite Reverse64_shiftr by lia.
    pose proof (reverse_bits_range w (Z.of_nat k)) as Hr.
    destruct (lookup_lt_is_Some_2 l (Z.to_nat (reverse_bits w (Z.of_nat k)))) as [v Hv];
      [lia |].
    exists (<[k:=v]> out). split.
    + rewrite (index_Some _ _ _ Hv), bind_ret, store_lt by lia. by rewrite bind_ret.
    + split; [by rewrite length_insert |]. intros j Hj.
      destruct (decide (j = k)) as [-> | Hne].
      * rewrite list_lookup_insert_eq by lia. done.
      * rewrite list_lookup_insert_ne by done. apply Hget. lia.
  - exists out. rewrite Hrun, bind_ret. split; [done |]. split; [done |].
    intros i Hi. apply Hget. lia.
Qed.

(** C5, as the code has it. For a sequence of exactly FieldElementsPerBlob
    elements, that constant being a power of two, bitReversalPermutation
    returns a new sequence of the same length with output[i] =
    input[reverse_bits i] on the least bit width that covers the length, and
    applying it to its own output gives the input back. *)
Theorem bitReversalPermutation_involution (l : list Z) :
  Blobs.isPowerOfTwo (Z.of_nat N) = true →
  (Z.of_nat N < 2 ^ 63)%Z →
  length l = N →
  ∃ out,
    Blobs.bitReversalPermutation l = mret out
    ∧ length out = length l
    ∧ (∀ i, i < length l →
            out !! i = l !! Z.to_nat (reverse_bits (bit_width (length l)) (Z.of_nat i)))
    ∧ Blobs.bitReversalPermutation out = mret l.
Proof.
  intros Hp HN Hl.
  destruct (isPowerOfTwo_pow2 (Z.of_nat N)) as [Hpos Hpow]; [lia | done |].
  set (w := Z.to_nat (Z.log2 (Z.of_nat N))).
  assert (Z.of_nat N = 2 ^ Z.of_nat w)%Z as HNw.
  { subst w. rewrite Z2Nat.id by apply Z.log2_nonneg. done. }
  assert (w ≤ 63) as Hw.
  { assert (Z.log2 (Z.of_nat N) < 63)%Z by (apply Z.log2_lt_pow2; lia). lia. }
  destruct (bitReversalPermutation_run l w HNw Hw Hl) as (out & Hrun & Hlen & Hget).
  destruct (bitReversalPermutation_run out w HNw Hw Hlen) as (back & Hrun' & Hlen' & Hget').
  exists out. rewrite Hl, (bit_width_pow2 N w HNw).
  split; [done |]. split; [done |]. split; [done |].
  rewrite Hrun'. f_equal. apply list_eq. intros i.
  destruct (decide (i < N)) as [Hi | Hi].
  - pose proof (reverse_bits_range w (Z.of_nat i)) as Hr.
    rewrite Hget', Hget by lia.
    rewrite Z2Nat.id, reverse_bits_involutive by lia.
    by rewrite Nat2Z.id.
  - rewrite !lookup_ge_None_2 by lia. done.
Qed.

End bitReversal_facts.

(** C5, on the protocol's constants: 4096 consecutive integers. *)
Lemma bitReversalPermutation_involution_mainnet :
  ∃ out,
    Blobs.bitReversalPermutation (cst := Mainnet.constants)
      (Z.of_nat <$> seq 0 4096) = mret out
    ∧ length out = length (Z.of_nat <$> seq 0 4096)
    ∧ (∀ i, i < length (Z.of_nat <$> seq 0 4096) →
            out !! i = (Z.of_nat <$> seq 0 4096)
                       !! Z.to_nat (reverse_bits
                                      (bit_width (length (Z.of_nat <$> seq 0 4096)))
                                      (Z.of_nat i)))
    ∧ Blobs.bitReversalPermutation (cst := Mainnet.constants) out
      = mret (Z.of_nat <$> seq 0 4096).
Proof.
  apply (bitReversalPermutation_involution (cst := Mainnet.constants)).
  - vm_compute. reflexivity.
  - vm_compute. reflexivity.
  - vm_compute. reflexivity.
Defined.

(** C5 as stated fails: a sequence of two elements has a power-of-two
    length, yet with 4096 field elements per blob the second round reads
    l[2048] and the call panics. *)
Lemma bitReversalPermutation_two_elements :
  Blobs.isPowerOfTwo (Z.of_nat (length [5; 7]%Z)) = true
  ∧ Blobs.bitReversalPermutation (cst := Mainnet.constants) [5; 7]%Z
    = go_panic IndexOutOfRange.
Proof. split; vm_compute; reflexivity. Qed.

(** ** Sidecar presence checks *)

Section presence_facts.
Context {col : Collaborators}.

(** C10. Whenever BlockContainsKZGs or BlockContainsSidecar returns an
    error, the boolean returned with it is false. *)
Theorem BlockContains_error_false (b : PerBlob.BeaconBlock)
    (sb : PerBlob.SignedBeaconBlock) :
  ((PerBlob.BlockContainsKZGs b).2 ≠ None → (PerBlob.BlockContainsKZGs b).1 = false)
  ∧ ((PerBlob.BlockContainsSidecar sb).2 ≠ None
     → (PerBlob.BlockContainsSidecar sb).1 = false).
Proof.
  split.
  - unfold PerBlob.BlockContainsKZGs.
    destruct (IsPreEIP4844Version _); [done |].
    destruct (PerBlob.Body_BlobKzgs b) as [kzgs [err |]]; done.
  - unfold PerBlob.BlockContainsSidecar.
    destruct (PerBlob.BlockContainsKZGs _) as [hasKzg [err |]]; [done |].
    destruct hasKzg; [| done]. simpl.
    destruct (PerBlob.SideCar sb) as [sc [err |]]; [| done].
    destruct (is_ErrNilSidecar err); done.
Qed.

End presence_facts.

(** C10 on a block whose commitment list cannot be read and a signed block
    whose sidecar cannot be fetched: both predicates return the error with
    false. *)
Lemma BlockContains_error_false_run :
  (PerBlob.BlockContainsKZGs (col := Stub.collaborators)
     {| PerBlob.Version := 3; PerBlob.Body_BlobKzgs := ([], Some (Foreign 7)) |}).1
  = false
  ∧ (PerBlob.BlockContainsSidecar (col := Stub.collaborators)
       {| PerBlob.Block :=
            {| PerBlob.Version := 3;
               PerBlob.Body_BlobKzgs := ([replicate 48 x00], None) |};
          PerBlob.SideCar := (Nil, Some (Foreign 9)) |}).1
    = false.
Proof.
  destruct (BlockContains_error_false (col := Stub.collaborators)
    {| PerBlob.Version := 3; PerBlob.Body_BlobKzgs := ([], Some (Foreign 7)) |}
    {| PerBlob.Block :=
         {| PerBlob.Version := 3;
            PerBlob.Body_BlobKzgs := ([replicate 48 x00], None) |};
       PerBlob.SideCar := (Nil, Some (Foreign 9)) |}) as [Hk Hs].
  split; [apply Hk | apply Hs]; vm_compute; discriminate.
Defined.

(** ** hashToBlsField *)

(** The integer the code builds from the digest is the digest read as a
    little-endian number. *)
Lemma SetBytes_ReverseByteOrder (h : list byte) :
  SetBytes (bytesutil.ReverseByteOrder h) = le_int h.
Proof.
  unfold SetBytes, bytesutil.ReverseByteOrder.
  induction h as [| b h IH]; [done |].
  rewrite reverse_cons, fold_left_app, IH. simpl. lia.
Qed.

Section hashToBlsField_facts.
Context {cst : Constants} {col : Collaborators}.

(** C2, at the input that breaks it. Whenever the input serializes, the
    code hashes the bytes and then stores the field element through the nil
    pointer [f]: the call panics and returns nothing. *)
Theorem hashToBlsField_nil_store {A} {msh : Marshaler A} (x : A) (m : list byte) :
  MarshalSSZ x = inl m →
  blsModulus ≠ 0%Z →
  Blobs.hashToBlsField x = Run [Call_MarshalSSZ; Call_Hash] (Panicked NilDereference).
Proof.
  intros Hm HP. unfold Blobs.hashToBlsField.
  rewrite Hm, !bind_called. unfold big_Mod.
  rewrite decide_False by done. by rewrite bind_ret.
Qed.

End hashToBlsField_facts.

(** C2 on the empty {blobs, commitments} container. *)
Lemma hashToBlsField_nil_store_run :
  Blobs.hashToBlsField (cst := Mainnet.constants) (col := Stub.collaborators)
    (msh := @marshal_BlobsAndCommitments Stub.collaborators)
    {| eth.rData_Blobs := []; eth.rData_Commitments := [] |}
  = Run [Call_MarshalSSZ; Call_Hash] (Panicked NilDereference).
Proof.
  apply (hashToBlsField_nil_store (cst := Mainnet.constants)
           (col := Stub.collaborators) _ []).
  - reflexivity.
  - vm_compute. discriminate.
Defined.

(** ** Empty sidecars *)

Section empty_sidecar_facts.
Context {cst : Constants} {col : Collaborators}.

(** C9. With matching slot and root and no commitments and no blobs, the
    per-blob verifier succeeds: it has no emptiness check and its loop runs
    zero rounds. *)
Theorem VerifyBlobsSidecar_empty (slot : Z) (root : list byte)
    (sc : PerBlob.BlobsSidecar) :
  slot = PerBlob.BeaconBlockSlot sc →
  root = bytesutil.ToBytes32 (PerBlob.BeaconBlockRoot sc) →
  PerBlob.Blobs sc = [] →
  PerBlob.VerifyBlobsSidecar slot root [] (PointsTo sc) = mret None.
Proof.
  intros Hslot Hroot Hblobs. unfold PerBlob.VerifyBlobsSidecar, deref.
  rewrite bind_ret, Hblobs.
  rewrite !bool_decide_eq_true_2 by done. simpl negb. cbv iota.
  simpl for_loop. by rewrite bind_ret.
Qed.

(** C3, at the input that breaks it. With matching slot and root and no
    commitments and no blobs, the aggregate verifier does not fail with
    ErrEmptyBlobsInSidecar: it derives the first challenge before it looks
    at the number of blobs, and as soon as the empty container serializes
    that derivation stores through a nil pointer, so the call panics after
    the serializer and the digest have been called and the check of the
    number of blobs is not reached. *)
Theorem ValidateBlobsSidecar_empty_panics (rootsOfUnity : list Z) (slot : Z)
    (root : list byte) (sc : eth.BlobsSidecar) (m : list byte) :
  slot = eth.BeaconBlockSlot sc →
  root = bytesutil.ToBytes32 (eth.BeaconBlockRoot sc) →
  eth.Blobs sc = [] →
  MarshalSSZ {| eth.rData_Blobs := []; eth.rData_Commitments := [] |} = inl m →
  blsModulus ≠ 0%Z →
  Blobs.ValidateBlobsSidecar rootsOfUnity slot root [] (PointsTo sc)
  = Run [Call_MarshalSSZ; Call_Hash] (Panicked NilDereference).
Proof.
  intros Hslot Hroot Hblobs Hm HP.
  unfold Blobs.ValidateBlobsSidecar, deref.
  rewrite bind_ret, Hblobs.
  rewrite !bool_decide_eq_true_2 by done. simpl negb. cbv iota.
  unfold Blobs.hashToBlsField. rewrite Hm, !bind_called.
  unfold big_Mod. rewrite decide_False by done. by rewrite bind_ret.
Qed.

End empty_sidecar_facts.

(** C9 on an empty sidecar for slot 7. *)
Lemma VerifyBlobsSidecar_empty_run :
  PerBlob.VerifyBlobsSidecar (cst := Mainnet.constants)
    (col := Stub.collaborators) 7 (replicate 32 x00) []
    (PointsTo {| PerBlob.BeaconBlockRoot := replicate 32 x00;
                 PerBlob.BeaconBlockSlot := 7;
                 PerBlob.Blobs := [] |})
  = mret None.
Proof.
  apply (VerifyBlobsSidecar_empty (cst := Mainnet.constants)
           (col := Stub.collaborators)); reflexivity.
Defined.

(** C3 on the empty sidecar for slot 7. *)
Lemma ValidateBlobsSidecar_empty_panics_run :
  Blobs.ValidateBlobsSidecar (cst := Mainnet.constants)
    (col := Stub.collaborators) [] 7 (replicate 32 x00) []
    (PointsTo {| eth.BeaconBlockRoot := replicate 32 x00;
                 eth.BeaconBlockSlot := 7;
                 eth.Blobs := [];
                 eth.AggregatedProof := replicate 48 x00 |})
  = Run [Call_MarshalSSZ; Call_Hash] (Panicked NilDereference).
Proof.
  apply (ValidateBlobsSidecar_empty_panics (cst := Mainnet.constants)
           (col := Stub.collaborators) _ _ _ _ []).
  - reflexivity.
  - reflexivity.
  - reflexivity.
  - reflexivity.
  - vm_compute. discriminate.
Defined.

(** ** Decoding a blob in the per-blob verifier *)

Lemma copy_into_zeros (n : nat) (b : list byte) :
  copy (replicate n x00) b = take n b ++ replicate (n - length b) x00.
Proof. unfold copy. by rewrite length_replicate, drop_replicate. Qed.

Lemma copy_exact (n : nat) (b : list byte) :
  length b = n → copy (replicate n x00) b = b.
Proof.
  intros Hb. rewrite copy_into_zeros, Hb, Nat.sub_diag. simpl.
  rewrite app_nil_r. apply take_ge. lia.
Qed.

Section decode_facts.
Context {cst : Constants}.

#[local] Abbreviation N := FieldElementsPerBlob.

(** C4, as the code has it. The per-blob verifier copies every chunk whole
    into its 32-byte field element: up to 32 bytes are kept, zeros fill the
    rest, and a chunk of exactly 32 bytes is kept unchanged, high byte
    included. *)
Theorem decode_blob_copies_chunks (chunks : list (list byte)) :
  length chunks ≤ N →
  ∃ blob,
    PerBlob.decode_blob chunks = mret blob
    ∧ length blob = N
    ∧ (∀ i b, chunks !! i = Some b →
              blob !! i = Some (take 32 b ++ replicate (32 - length b) x00))
    ∧ (∀ i b, chunks !! i = Some b → length b = 32 → blob !! i = Some b).
Proof.
  intros Hlen. unfold PerBlob.decode_blob.
  match goal with |- context [for_loop ?n 0 ?body ?s] =>
    destruct (for_loop_pure (R := Empty_set)
      (λ k blob, length blob = N
                 ∧ ∀ j b, j < k → chunks !! j = Some b →
                          blob !! j = Some (copy (replicate 32 x00) b))
      n body 0 s) as (blob & Hrun & Hlen' & Hget)
  end.
  - split; [apply length_replicate | intros; lia].
  - intros k blob Hk [Hb Hget].
    destruct (lookup_lt_is_Some_2 chunks k) as [b Hkb]; [lia |].
    exists (<[k:=copy (replicate 32 x00) b]> blob). split.
    + unfold PerBlob.decode_chunk.
      rewrite (index_Some _ _ _ Hkb), bind_ret, store_lt by lia.
      by rewrite bind_ret.
    + split; [by rewrite length_insert |]. intros j b' Hj Hjb.
      destruct (decide (j = k)) as [-> | Hne].
      * rewrite list_lookup_insert_eq by lia. congruence.
      * rewrite list_lookup_insert_ne by done. apply Hget; [lia | done].
  - exists blob. rewrite Hrun, bind_ret. split; [done |]. split; [done |].
    split.
    + intros i b Hib. rewrite <- copy_into_zeros. apply Hget; [| done].
      apply lookup_lt_Some in Hib. lia.
    + intros i b Hib Hb. pose proof (lookup_lt_Some _ _ _ Hib).
      rewrite (Hget i b) by (done || lia). by rewrite copy_exact.
Qed.

End decode_facts.

(** C4 on a blob of one chunk whose high byte is 0x01. *)
Lemma decode_blob_copies_chunks_run :
  ∃ blob,
    PerBlob.decode_blob (cst := Mainnet.constants) [replicate 31 x00 ++ [x01]]
    = mret blob
    ∧ length blob = 4096
    ∧ (∀ i b, [replicate 31 x00 ++ [x01]] !! i = Some b →
              blob !! i = Some (take 32 b ++ replicate (32 - length b) x00))
    ∧ (∀ i b, [replicate 31 x00 ++ [x01]] !! i = Some b → length b = 32 →
              blob !! i = Some b).
Proof.
  apply (decode_blob_copies_chunks (cst := Mainnet.constants)).
  vm_compute. lia.
Defined.

(** C4 as stated fails: two chunks that differ in the high byte only are
    decoded to different field elements. *)
Lemma decode_blob_reads_high_byte :
  take 31 (replicate 31 x00 ++ [x01]) = take 31 (replicate 31 x00 ++ [x00])
  ∧ PerBlob.decode_blob (cst := Mainnet.constants) [replicate 31 x00 ++ [x01]]
    ≠ PerBlob.decode_blob (cst := Mainnet.constants) [replicate 31 x00 ++ [x00]].
Proof.
  split; [reflexivity |]. intros Heq.
  apply (f_equal (λ r, match outcome r with
                       | Done blob => blob !! 0
                       | Panicked _ => None
                       end)) in Heq.
  vm_compute in Heq. discriminate.
Qed.

(** ** g1LinComb *)

Section g1LinComb_facts.
Context {col : Collaborators}.

(** Either every point decompresses, or there is a first one that does not. *)
Lemma decompress_cases (points : list (list byte)) :
  (∃ g1s, Forall2 (λ p g, FromCompressedG1 p = inl g) points g1s)
  ∨ (∃ i p err,
       points !! i = Some p ∧ FromCompressedG1 p = inr err
       ∧ ∀ j p', j < i → points !! j = Some p' →
                 ∃ g, FromCompressedG1 p' = inl g).
Proof.
  induction points as [| p ps IH].
  - left. exists []. constructor.
  - destruct (FromCompressedG1 p) as [g | err] eqn:Hp.
    + destruct IH as [[g1s Hall] | (i & p' & err & Hi & Herr & Hbefore)].
      * left. exists (g :: g1s). by constructor.
      * right. exists (Datatypes.S i), p', err. split; [done |]. split; [done |].
        intros [| j] q Hj Hq; simpl in Hq.
        -- injection Hq as <-. eauto.
        -- apply (Hbefore j); [lia | done].
    + right. exists 0, p, err. split; [done |]. split; [done |]. intros; lia.
Qed.

Lemma g1LinComb_point_ok (points : list (list byte)) i p g (g1s : list G1Point) :
  points !! i = Some p → FromCompressedG1 p = inl g → i < length g1s →
  outcome (Blobs.g1LinComb_point points i g1s) = Done (Continue (<[i:=g]> g1s)).
Proof.
  intros Hp Hg Hi. unfold Blobs.g1LinComb_point.
  rewrite (index_Some _ _ _ Hp), bind_ret, bind_called, Hg, store_lt by done.
  by rewrite bind_ret.
Qed.

Lemma g1LinComb_point_err (points : list (list byte)) i p err (g1s : list G1Point) :
  points !! i = Some p → FromCompressedG1 p = inr err →
  outcome (Blobs.g1LinComb_point points i g1s) = Done (Return err).
Proof.
  intros Hp Herr. unfold Blobs.g1LinComb_point.
  by rewrite (index_Some _ _ _ Hp), bind_ret, bind_called, Herr.
Qed.

Lemma g1LinComb_all (points : list (list byte)) (scalars : list Z)
    (g1s : list G1Point) :
  length points = length scalars →
  Forall2 (λ p g, FromCompressedG1 p = inl g) points g1s →
  outcome (Blobs.g1LinComb points scalars)
  = Done (inl (ToCompressedG1 (LinCombG1 g1s scalars))).
Proof.
  intros Hlen Hall. unfold Blobs.g1LinComb.
  rewrite bool_decide_eq_true_2 by done. simpl negb. cbv iota.
  rewrite make_nat, bind_ret, length_replicate.
  pose proof (Forall2_length Hall) as Hlg.
  destruct (for_loop_continues (R := error)
    (λ k acc, length acc = length points ∧ ∀ j, j < k → acc !! j = g1s !! j)
    (length points) (Blobs.g1LinComb_point points) 0
    (replicate (length points) G1_zero)) as (acc & Hrun & Hal & Hget).
  - split; [apply length_replicate | intros; lia].
  - intros k acc Hk [Hal Hget].
    destruct (lookup_lt_is_Some_2 points k) as [p Hp]; [lia |].
    destruct (Forall2_lookup_l _ _ _ _ _ Hall Hp) as (g & Hg & Hpg).
    exists (<[k:=g]> acc). split.
    + apply (g1LinComb_point_ok points k p); [done | done | lia].
    + split; [by rewrite length_insert |]. intros j Hj.
      destruct (decide (j = k)) as [-> | Hne].
      * rewrite list_lookup_insert_eq by lia. done.
      * rewrite list_lookup_insert_ne by done. apply Hget. lia.
  - rewrite outcome_bind, Hrun, bind_called. simpl.
    do 4 f_equal. apply list_eq. intros j.
    destruct (decide (j < length points)) as [Hj | Hj].
    + apply Hget. lia.
    + rewrite !lookup_ge_None_2 by lia. done.
Qed.

Lemma g1LinComb_first_error (points : list (list byte)) (scalars : list Z) i p err :
  length points = length scalars →
  points !! i = Some p → FromCompressedG1 p = inr err →
  (∀ j p', j < i → points !! j = Some p' → ∃ g, FromCompressedG1 p' = inl g) →
  outcome (Blobs.g1LinComb points scalars) = Done (inr err).
Proof.
  intros Hlen Hp Herr Hbefore. unfold Blobs.g1LinComb.
  rewrite bool_decide_eq_true_2 by done. simpl negb. cbv iota.
  rewrite make_nat, bind_ret, length_replicate, outcome_bind.
  pose proof (lookup_lt_Some _ _ _ Hp) as Hi.
  rewrite (for_loop_exits (λ k acc, length acc = length points)
             (length points) (Blobs.g1LinComb_point points) i (Done (Return err))).
  - done.
  - apply length_replicate.
  - lia.
  - intros k acc Hk Hal.
    destruct (lookup_lt_is_Some_2 points k) as [q Hq]; [lia |].
    destruct (Hbefore k q) as [g Hg]; [lia | done |].
    exists (<[k:=g]> acc). split; [| by rewrite length_insert].
    apply (g1LinComb_point_ok points k q); [done | done | lia].
  - intros acc _. by apply (g1LinComb_point_err points i p).
  - done.
Qed.

(** C7. With lists of different lengths g1LinComb returns its length error
    and neither panics nor calls the curve library. With lists of the same
    length it returns a decompression error exactly when some point fails
    to decompress, the error being the one of the first such point, and
    otherwise the compressed linear combination of the decompressed
    points. *)
Theorem g1LinComb_spec (points : list (list byte)) (scalars : list Z) :
  (length points ≠ length scalars →
   Blobs.g1LinComb points scalars
   = mret (inr (errors_New "points and scalars have to be the same length")))
  ∧ (length points = length scalars →
     ((∃ err, outcome (Blobs.g1LinComb points scalars) = Done (inr err))
      ↔ (∃ p err, p ∈ points ∧ FromCompressedG1 p = inr err))
     ∧ (∀ i p err,
          points !! i = Some p → FromCompressedG1 p = inr err →
          (∀ j p', j < i → points !! j = Some p' →
                   ∃ g, FromCompressedG1 p' = inl g) →
          outcome (Blobs.g1LinComb points scalars) = Done (inr err))
     ∧ (∀ g1s,
          Forall2 (λ p g, FromCompressedG1 p = inl g) points g1s →
          outcome (Blobs.g1LinComb points scalars)
          = Done (inl (ToCompressedG1 (LinCombG1 g1s scalars))))).
Proof.
  split.
  - intros Hne. unfold Blobs.g1LinComb. by rewrite bool_decide_eq_false_2.
  - intros Hlen. split; [| split].
    + split.
      * intros [err Herr].
        destruct (decompress_cases points)
          as [[g1s Hall] | (i & p & e & Hp & He & Hbefore)].
        -- rewrite (g1LinComb_all points scalars g1s Hlen Hall) in Herr. done.
        -- exists p, e. split; [| done]. by apply list_elem_of_lookup_2 with i.
      * intros (p & err & Hin & Hperr).
        destruct (decompress_cases points)
          as [[g1s Hall] | (i & q & e & Hq & He & Hbefore)].
        -- apply list_elem_of_lookup_1 in Hin as [i Hi].
           destruct (Forall2_lookup_l _ _ _ _ _ Hall Hi) as (g & _ & Hg). congruence.
        -- exists e. by apply (g1LinComb_first_error points scalars i q).
    + intros i p err. by apply g1LinComb_first_error.
    + intros g1s. by apply g1LinComb_all.
Qed.

End g1LinComb_facts.

(** C7 on two commitments with two scalars, the second commitment being one
    byte long, and on one commitment without scalar. *)
Lemma g1LinComb_spec_run :
  outcome (Blobs.g1LinComb (col := Stub.collaborators)
             [replicate 48 x00; [x01]] [1; 2]%Z)
  = Done (inr (Foreign 1))
  ∧ Blobs.g1LinComb (col := Stub.collaborators) [replicate 48 x00] []
    = mret (inr (errors_New "points and scalars have to be the same length")).
Proof.
  split.
  - destruct (g1LinComb_spec (col := Stub.collaborators)
                [replicate 48 x00; [x01]] [1; 2]%Z) as [_ Hsame].
    destruct (Hsame ltac:(reflexivity)) as (_ & Hfirst & _).
    apply (Hfirst 1 [x01]); [reflexivity | reflexivity |].
    intros [| j] p' Hj Hp'; [| lia].
    injection Hp' as <-. eexists. reflexivity.
  - destruct (g1LinComb_spec (col := Stub.collaborators)
                [replicate 48 x00] []) as [Hdiff _].
    apply Hdiff. vm_compute. discriminate.
Defined.

(** ** The per-blob verifier *)

Lemma for_loop_all_continue {R} todo (body : nat → unit → go (flow unit R)) :
  ∀ i,
    outcome (for_loop todo i body tt) = Done (Continue tt)
    ↔ ∀ k, i ≤ k < i + todo → outcome (body k tt) = Done (Continue tt).
Proof.
  induction todo as [| todo IH]; intros i.
  - split; [intros _ k Hk; lia | done].
  - rewrite for_loop_step.
    destruct (outcome (body i tt)) as [[[] | r] | p] eqn:Hi.
    + rewrite IH. split; intros Hall k Hk.
      * destruct (decide (k = i)) as [-> | Hne]; [done | apply Hall; lia].
      * apply Hall. lia.
    + split; [done |]. intros Hall. specialize (Hall i ltac:(lia)). congruence.
    + split; [done |]. intros Hall. specialize (Hall i ltac:(lia)). congruence.
Qed.

Section VerifyBlobsSidecar_facts.
Context {cst : Constants} {col : Collaborators}.

(** What one round does with the commitment recomputed from its blob. *)
Lemma VerifyBlobsSidecar_round_outcome (expected : list (list byte))
    (sc : PerBlob.BlobsSidecar) i e p :
  expected !! i = Some e → PerBlob.Blobs sc !! i = Some p →
  outcome (PerBlob.VerifyBlobsSidecar_round expected sc i tt)
  = match outcome (PerBlob.blob_to_kzg p) with
    | Done (kzg, false) => Done (Return ErrCouldNotComputeCommitment)
    | Done (kzg, true) =>
        if bool_decide (kzg = e) then Done (Continue tt)
        else Done (Return ErrMissmatchKzgs)
    | Panicked q => Panicked q
    end.
Proof.
  intros He Hp. unfold PerBlob.VerifyBlobsSidecar_round.
  rewrite (index_Some _ _ _ He), bind_ret, (index_Some _ _ _ Hp), bind_ret.
  rewrite outcome_bind.
  destruct (outcome (PerBlob.blob_to_kzg p)) as [[kzg [|]] | q]; [| done..].
  simpl. by destruct (bool_decide (kzg = e)).
Qed.

Lemma VerifyBlobsSidecar_checks (slot : Z) (root : list byte)
    (expected : list (list byte)) (sc : PerBlob.BlobsSidecar) :
  slot = PerBlob.BeaconBlockSlot sc →
  root = bytesutil.ToBytes32 (PerBlob.BeaconBlockRoot sc) →
  length expected = length (PerBlob.Blobs sc) →
  outcome (PerBlob.VerifyBlobsSidecar slot root expected (PointsTo sc))
  = match outcome (for_loop (length expected) 0
                     (PerBlob.VerifyBlobsSidecar_round expected sc) tt) with
    | Done (Return err) => Done (Some err)
    | Done (Continue _) => Done None
    | Panicked q => Panicked q
    end.
Proof.
  intros Hslot Hroot Hlen. unfold PerBlob.VerifyBlobsSidecar, deref.
  rewrite bind_ret, !bool_decide_eq_true_2 by done. simpl negb. cbv iota.
  rewrite outcome_bind.
  by destruct (outcome (for_loop _ _ _ _)) as [[[] | err] | q].
Qed.

(** The verdict in terms of the rounds: the call returns nil exactly when
    every round ends with an equal commitment, and the first round that
    does not decides the error. *)
Lemma VerifyBlobsSidecar_by_rounds (slot : Z) (root : list byte)
    (expected : list (list byte)) (sc : PerBlob.BlobsSidecar) :
  slot = PerBlob.BeaconBlockSlot sc →
  root = bytesutil.ToBytes32 (PerBlob.BeaconBlockRoot sc) →
  length expected = length (PerBlob.Blobs sc) →
  (outcome (PerBlob.VerifyBlobsSidecar slot root expected (PointsTo sc)) = Done None
   ↔ Forall2 (λ p e, outcome (PerBlob.blob_to_kzg p) = Done (e, true))
       (PerBlob.Blobs sc) expected)
  ∧ ∀ i p e,
      PerBlob.Blobs sc !! i = Some p → expected !! i = Some e →
      Forall2 (λ p e, outcome (PerBlob.blob_to_kzg p) = Done (e, true))
        (take i (PerBlob.Blobs sc)) (take i expected) →
      (∀ kzg, outcome (PerBlob.blob_to_kzg p) = Done (kzg, true) → kzg ≠ e →
              outcome (PerBlob.VerifyBlobsSidecar slot root expected (PointsTo sc))
              = Done (Some ErrMissmatchKzgs))
      ∧ (∀ kzg, outcome (PerBlob.blob_to_kzg p) = Done (kzg, false) →
                outcome (PerBlob.VerifyBlobsSidecar slot root expected (PointsTo sc))
                = Done (Some ErrCouldNotComputeCommitment)).
Proof.
  intros Hslot Hroot Hlen.
  rewrite (VerifyBlobsSidecar_checks slot root expected sc Hslot Hroot Hlen).
  split.
  - rewrite Forall2_same_length_lookup.
    transitivity (outcome (for_loop (length expected) 0
                    (PerBlob.VerifyBlobsSidecar_round expected sc) tt)
                  = Done (Continue tt)).
    { destruct (outcome (for_loop _ _ _ _)) as [[[] | err] | q]; split; done. }
    rewrite for_loop_all_continue. split.
    + intros Hall. split; [done |]. intros i p e Hp He.
      pose proof (lookup_lt_Some _ _ _ He) as Hi.
      specialize (Hall i ltac:(lia)).
      rewrite (VerifyBlobsSidecar_round_outcome expected sc i e p He Hp) in Hall.
      revert Hall.
      destruct (outcome (PerBlob.blob_to_kzg p)) as [[kzg [|]] | q]; [| done..].
      case_bool_decide; [intros _; congruence | done].
    + intros [_ Hall] k Hk.
      destruct (lookup_lt_is_Some_2 expected k) as [e He]; [lia |].
      destruct (lookup_lt_is_Some_2 (PerBlob.Blobs sc) k) as [p Hp]; [lia |].
      rewrite (VerifyBlobsSidecar_round_outcome expected sc k e p He Hp).
      rewrite (Hall k p e Hp He). by rewrite bool_decide_eq_true_2.
  - intros i p e Hp He Hbefore.
    apply Forall2_same_length_lookup in Hbefore as [_ Hbefore].
    pose proof (lookup_lt_Some _ _ _ He) as Hi.
    assert (∀ o, (∀ s', o ≠ Done (Continue s')) →
                 outcome (PerBlob.VerifyBlobsSidecar_round expected sc i tt) = o →
                 outcome (for_loop (length expected) 0
                            (PerBlob.VerifyBlobsSidecar_round expected sc) tt) = o)
      as Hstop.
    { intros o Ho Hround.
      apply (for_loop_exits (λ _ _, True) _ _ i); [done | lia | | | done].
      - intros k [] Hk _. exists tt. split; [| done].
        destruct (lookup_lt_is_Some_2 expected k) as [e' He']; [lia |].
        destruct (lookup_lt_is_Some_2 (PerBlob.Blobs sc) k) as [p' Hp']; [lia |].
        rewrite (VerifyBlobsSidecar_round_outcome expected sc k e' p' He' Hp').
        rewrite (Hbefore k p' e'), bool_decide_eq_true_2; [done..| |].
        + rewrite lookup_take_lt; [done | lia].
        + rewrite lookup_take_lt; [done | lia].
      - by intros []. }
    split.
    + intros kzg Hkzg Hne.
      rewrite (Hstop (Done (Return ErrMissmatchKzgs))); [done.. |].
      rewrite (VerifyBlobsSidecar_round_outcome expected sc i e p He Hp), Hkzg.
      by rewrite bool_decide_eq_false_2.
    + intros kzg Hkzg.
      rewrite (Hstop (Done (Return ErrCouldNotComputeCommitment))); [done.. |].
      by rewrite (VerifyBlobsSidecar_round_outcome expected sc i e p He Hp), Hkzg.
Qed.

End VerifyBlobsSidecar_facts.

(** ** polyLinComb *)

Lemma Z_of_byte_range (b : byte) : (0 ≤ Z_of_byte b < 256)%Z.
Proof. unfold Z_of_byte. pose proof (Byte.to_N_bounded b). lia. Qed.

Lemma le_int_range (bs : list byte) : (0 ≤ le_int bs < 256 ^ Z.of_nat (length bs))%Z.
Proof.
  induction bs as [| b bs IH]; simpl length; [simpl; lia |].
  rewrite Nat2Z.inj_succ, Z.pow_succ_r by lia. simpl le_int.
  pose proof (Z_of_byte_range b). lia.
Qed.

Lemma le_int_app_zeros (bs : list byte) (k : nat) :
  le_int (bs ++ replicate k x00) = le_int bs.
Proof.
  induction bs as [| b bs IH]; simpl.
  - induction k as [| k IHk]; simpl; [done |]. rewrite IHk. done.
  - by rewrite IH.
Qed.

(** A chunk cut to 31 bytes decodes to less than 2^248, whatever it holds. *)
Lemma le_int_ToBytes32_short (b : list byte) :
  length b ≤ 31 → (0 ≤ le_int (bytesutil.ToBytes32 b) < 2 ^ 248)%Z.
Proof.
  intros Hb. unfold bytesutil.ToBytes32, bytesutil.ToBytesN.
  rewrite copy_into_zeros, le_int_app_zeros.
  pose proof (le_int_range (take 32 b)) as Hr. rewrite length_take in Hr.
  assert (256 ^ Z.of_nat (32 `min` length b) ≤ 256 ^ 31)%Z
    by (apply Z.pow_le_mono_r; lia).
  change (2 ^ 248)%Z with (256 ^ 31)%Z. lia.
Qed.

Section polyLinComb_facts.
Context {cst : Constants} {col : Collaborators}.

#[local] Abbreviation N := FieldElementsPerBlob.

Lemma polyLinComb_chunk_inside (blob : slice byte) (j : nat) (r : list Z) :
  (2 ^ 248 ≤ blsModulus)%Z →
  length (visible blob) = N * 32 → length r = N → j < N →
  ∃ r', Blobs.polyLinComb_chunk blob j r = mret (Continue r') ∧ length r' = N.
Proof.
  intros HP Hblob Hr Hj. unfold Blobs.polyLinComb_chunk, reslice.
  rewrite decide_True by (unfold cap; lia). rewrite bind_ret.
  destruct (lookup_lt_is_Some_2 r j) as [v Hv]; [lia |].
  rewrite (index_Some _ _ _ Hv), bind_ret.
  match goal with |- context [bytesutil.ToBytes32 ?b] =>
    pose proof (le_int_ToBytes32_short b) as Hdec;
    unfold bls.FrFrom32; rewrite decide_True
  end.
  - rewrite store_lt by lia. rewrite bind_ret. eexists. split; [done |].
    by rewrite length_insert.
  - rewrite length_take in Hdec. lia.
Qed.

Lemma polyLinComb_chunk_beyond (blob : slice byte) (r : list Z) :
  length r = N →
  Blobs.polyLinComb_chunk blob N r
  = go_panic (if decide (N * 32 + 31 ≤ cap blob) then IndexOutOfRange
              else SliceBoundsOutOfRange).
Proof.
  intros Hr. unfold Blobs.polyLinComb_chunk, reslice.
  destruct (decide (N * 32 + 31 ≤ cap blob)) as [Hcap | Hcap].
  - rewrite decide_True by lia. rewrite bind_ret.
    rewrite index_None by (apply lookup_ge_None_2; lia). done.
  - rewrite decide_False by lia. done.
Qed.

(** C1, at the inputs that break it. As soon as the first blob has exactly
    N*32 bytes, polyLinComb panics: round j = N of the inner loop, one past
    the last chunk, cuts blob[N*32 : N*32+31] and addresses r[N]. No
    polynomial and no error is returned, for any scalars. *)
Theorem polyLinComb_overruns (b : v1.Blob) (rest : list (pointer v1.Blob))
    (scalars : list Z) :
  (2 ^ 248 ≤ blsModulus)%Z →
  length (visible (v1.Data b)) = N * 32 →
  outcome (Blobs.polyLinComb (PointsTo b :: rest) scalars)
  = Panicked (if decide (N * 32 + 31 ≤ cap (v1.Data b)) then IndexOutOfRange
              else SliceBoundsOutOfRange).
Proof.
  intros HP Hb. unfold Blobs.polyLinComb.
  rewrite make_nat, bind_ret, outcome_bind. simpl length.
  rewrite for_loop_step. unfold Blobs.polyLinComb_blob at 1.
  rewrite make_nat, bind_ret.
  rewrite (index_Some _ 0 (PointsTo b)) by done. unfold deref.
  rewrite !bind_ret, outcome_bind.
  rewrite (for_loop_exits (λ _ r, length r = N) (N + 1)
             (Blobs.polyLinComb_chunk (v1.Data b)) N
             (Panicked (if decide (N * 32 + 31 ≤ cap (v1.Data b))
                        then IndexOutOfRange else SliceBoundsOutOfRange))).
  - done.
  - apply length_replicate.
  - lia.
  - intros k r Hk Hr.
    destruct (polyLinComb_chunk_inside (v1.Data b) k r) as (r' & -> & Hr');
      [done | done | done | lia |]. by exists r'.
  - intros r Hr. by rewrite polyLinComb_chunk_beyond.
  - done.
Qed.

End polyLinComb_facts.

(** C1 on one blob of 4096 * 32 zero bytes with the scalar 1. *)
Lemma polyLinComb_overruns_run :
  outcome (Blobs.polyLinComb (cst := Mainnet.constants)
             (col := Stub.collaborators)
             [PointsTo Mainnet.zero_blob] [1%Z])
  = Panicked SliceBoundsOutOfRange.
Proof.
  rewrite (polyLinComb_overruns (cst := Mainnet.constants)
             (col := Stub.collaborators) Mainnet.zero_blob [] [1%Z]).
  - vm_compute. reflexivity.
  - vm_compute. discriminate.
  - apply length_replicate.
Defined.


(** * Further properties of the package *)

(** ** isPowerOfTwo *)

Lemma isPowerOfTwo_of_pow2 (k : nat) :
  k < 64 → Blobs.isPowerOfTwo (2 ^ Z.of_nat k) = true.
Proof.
  intros Hk. unfold Blobs.isPowerOfTwo.
  assert (2 ^ Z.of_nat k ≤ 2 ^ 63)%Z by (apply Z.pow_le_mono_r; lia).
  assert (0 < 2 ^ Z.of_nat k)%Z by (apply Z.pow_pos_nonneg; lia).
  rewrite Z.mod_small by lia.
  rewrite andb_true_iff, !bool_decide_eq_true. split; [lia |].
  apply Z.bits_inj'. intros n Hn. rewrite Z.land_spec, Z.testbit_0_l.
  destruct (decide (n = Z.of_nat k)) as [-> | Hne].
  - replace (2 ^ Z.of_nat k - 1)%Z with (Z.ones (Z.of_nat k))
      by (rewrite Z.ones_equiv; lia).
    rewrite Z.ones_spec_high by lia. apply andb_false_r.
  - rewrite Z.pow2_bits_false by lia. done.
Qed.

(** X1. On 64-bit unsigned values isPowerOfTwo answers true exactly for the
    powers of two 2^0, ..., 2^63; zero is refused. *)
Theorem isPowerOfTwo_iff (v : Z) :
  (0 ≤ v < 2 ^ 64)%Z →
  Blobs.isPowerOfTwo v = true ↔ ∃ k : nat, k < 64 ∧ v = (2 ^ Z.of_nat k)%Z.
Proof.
  intros Hv. split.
  - intros Hp. destruct (isPowerOfTwo_pow2 v) as [Hpos Hpow]; [lia | done |].
    exists (Z.to_nat (Z.log2 v)).
    assert (Z.log2 v < 64)%Z by (apply Z.log2_lt_pow2; lia).
    pose proof (Z.log2_nonneg v). rewrite Z2Nat.id by lia. split; [lia | done].
  - intros (k & Hk & ->). by apply isPowerOfTwo_of_pow2.
Qed.

(** X1 at 4096. *)
Lemma isPowerOfTwo_iff_run :
  Blobs.isPowerOfTwo 4096 = true ↔ ∃ k : nat, k < 64 ∧ 4096%Z = (2 ^ Z.of_nat k)%Z.
Proof. apply isPowerOfTwo_iff. split; vm_compute; [discriminate | reflexivity]. Defined.

(** ** bitReversalPermutation beyond its intended input *)

Section bitReversal_more.
Context {cst : Constants}.

#[local] Abbreviation N := FieldElementsPerBlob.

Lemma power_of_two_width :
  Blobs.isPowerOfTwo (Z.of_nat N) = true → (Z.of_nat N < 2 ^ 63)%Z →
  ∃ w : nat, Z.of_nat N = (2 ^ Z.of_nat w)%Z ∧ w ≤ 63.
Proof.
  intros Hp HN.
  destruct (isPowerOfTwo_pow2 (Z.of_nat N)) as [Hpos Hpow]; [lia | done |].
  exists (Z.to_nat (Z.log2 (Z.of_nat N))).
  pose proof (Z.log2_nonneg (Z.of_nat N)).
  assert (Z.log2 (Z.of_nat N) < 63)%Z by (apply Z.log2_lt_pow2; lia).
  rewrite Z2Nat.id by lia. split; [done | lia].
Qed.

(** X2. For a sequence of exactly FieldElementsPerBlob elements the output
    of bitReversalPermutation is a rearrangement of the input: nothing is
    lost, duplicated or invented. *)
Theorem bitReversalPermutation_Permutation (l : list Z) :
  Blobs.isPowerOfTwo (Z.of_nat N) = true →
  (Z.of_nat N < 2 ^ 63)%Z →
  length l = N →
  ∃ out, Blobs.bitReversalPermutation l = mret out ∧ out ≡ₚ l.
Proof.
  intros Hp HN Hl.
  destruct (power_of_two_width Hp HN) as (w & HNw & Hw).
  destruct (bitReversalPermutation_run l w HNw Hw Hl) as (out & Hrun & Hlen & Hget).
  exists out. split; [done |]. apply Permutation_inj. split; [lia |].
  set (f := λ i, if decide (i < N)
                 then Z.to_nat (reverse_bits w (Z.of_nat i)) else i).
  assert (∀ i, i < N → f i < N) as Hf.
  { intros i Hi. unfold f. rewrite decide_True by done.
    pose proof (reverse_bits_range w (Z.of_nat i)). lia. }
  exists f. split.
  - intros i j Hij. unfold f in Hij.
    destruct (decide (i < N)) as [Hi | Hi], (decide (j < N)) as [Hj | Hj].
    + pose proof (reverse_bits_range w (Z.of_nat i)).
      pose proof (reverse_bits_range w (Z.of_nat j)).
      assert (reverse_bits w (Z.of_nat i) = reverse_bits w (Z.of_nat j)) as Heq by lia.
      apply (f_equal (reverse_bits w)) in Heq.
      rewrite !reverse_bits_involutive in Heq by lia. lia.
    + pose proof (Hf i Hi) as Hfi. unfold f in Hfi.
      rewrite decide_True in Hfi by done. lia.
    + pose proof (Hf j Hj) as Hfj. unfold f in Hfj.
      rewrite decide_True in Hfj by done. lia.
    + done.
  - intros i. unfold f. destruct (decide (i < N)) as [Hi | Hi].
    + by apply Hget.
    + rewrite !lookup_ge_None_2 by lia. done.
Qed.

(** X3. What bitReversalPermutation does with other inputs.  When
    FieldElementsPerBlob is not a power of two it panics with its message for
    every input.  When it is, the empty sequence yields FieldElementsPerBlob
    zero elements, not the empty sequence, and a sequence longer than
    FieldElementsPerBlob ends in an index-out-of-range panic. *)
Theorem bitReversalPermutation_other_sizes (l : list Z) :
  (Blobs.isPowerOfTwo (Z.of_nat N) = false →
   Blobs.bitReversalPermutation l
   = go_panic (Explicit "params.FieldElementsPerBlob must be a power of two"))
  ∧ (Blobs.isPowerOfTwo (Z.of_nat N) = true → (Z.of_nat N < 2 ^ 63)%Z →
     Blobs.bitReversalPermutation [] = mret (replicate N 0%Z)
     ∧ (N < length l →
        outcome (Blobs.bitReversalPermutation l) = Panicked IndexOutOfRange)).
Proof.
  split.
  - intros Hp. unfold Blobs.bitReversalPermutation. by rewrite Hp.
  - intros Hp HN. destruct (power_of_two_width Hp HN) as (w & HNw & Hw).
    split.
    + unfold Blobs.bitReversalPermutation. rewrite Hp. simpl negb. cbv iota.
      rewrite make_nat, bind_ret. simpl for_loop. by rewrite bind_ret.
    + intros Hl. unfold Blobs.bitReversalPermutation. rewrite Hp.
      simpl negb. cbv iota. rewrite make_nat, bind_ret, outcome_bind.
      rewrite HNw, Len64_pow2.
      replace (65 - (Z.of_nat w + 1))%Z with (64 - Z.of_nat w)%Z by lia.
      match goal with |- context [for_loop (length l) 0 ?body ?s] =>
        rewrite (for_loop_exits (λ _ out, length out = N) (length l) body N
                   (Panicked IndexOutOfRange))
      end.
      * done.
      * apply length_replicate.
      * lia.
      * intros k out Hk Hout. rewrite Reverse64_shiftr by lia.
        pose proof (reverse_bits_range w (Z.of_nat k)) as Hr.
        destruct (lookup_lt_is_Some_2 l (Z.to_nat (reverse_bits w (Z.of_nat k))))
          as [v Hv]; [lia |].
        exists (<[k:=v]> out). split; [| by rewrite length_insert].
        rewrite (index_Some _ _ _ Hv), bind_ret, store_lt by lia.
        by rewrite bind_ret.
      * intros out Hout. rewrite Reverse64_shiftr by lia.
        pose proof (reverse_bits_range w (Z.of_nat N)) as Hr.
        destruct (lookup_lt_is_Some_2 l (Z.to_nat (reverse_bits w (Z.of_nat N))))
          as [v Hv]; [lia |].
        rewrite (index_Some _ _ _ Hv), bind_ret.
        unfold store. rewrite decide_False by lia. done.
      * done.
Qed.

End bitReversal_more.

(** X2 on 4096 consecutive integers. *)
Lemma bitReversalPermutation_Permutation_run :
  ∃ out,
    Blobs.bitReversalPermutation (cst := Mainnet.constants)
      (Z.of_nat <$> seq 0 4096) = mret out
    ∧ out ≡ₚ Z.of_nat <$> seq 0 4096.
Proof.
  apply (bitReversalPermutation_Permutation (cst := Mainnet.constants)).
  - vm_compute. reflexivity.
  - vm_compute. reflexivity.
  - vm_compute. reflexivity.
Defined.

(** X3 on 4097 zeros. *)
Lemma bitReversalPermutation_other_sizes_run :
  Blobs.bitReversalPermutation (cst := Mainnet.constants) []
  = mret (replicate 4096 0%Z)
  ∧ outcome (Blobs.bitReversalPermutation (cst := Mainnet.constants)
               (replicate 4097 0%Z))
    = Panicked IndexOutOfRange.
Proof.
  destruct (bitReversalPermutation_other_sizes (cst := Mainnet.constants)
              (replicate 4097 0%Z)) as [_ Hpow].
  destruct Hpow as [Hempty Hlong].
  - vm_compute. reflexivity.
  - vm_compute. reflexivity.
  - split; [exact Hempty |]. apply Hlong. rewrite length_replicate.
    apply Nat.ltb_lt. vm_compute. reflexivity.
Defined.

(** ** bigToFr and the table of roots of unity *)

Lemma parse_decimal_big_String (z : Z) : parse_decimal (big_String z) = z.
Proof.
  unfold parse_decimal, big_String.
  rewrite NilZero.isi.
  - apply DecimalZ.of_to.
  - destruct z; simpl; try discriminate.
    intros [=Hnil]. by apply (DecimalPos.Unsigned.to_uint_nonnil p).
  - destruct z; simpl; try discriminate.
    intros [=Hnil]. by apply (DecimalPos.Unsigned.to_uint_nonnil p).
Qed.

Lemma Exp_pos_spec (x : Z) (p : positive) (m : Z) :
  Exp_pos x p m = (x ^ Z.pos p mod m)%Z.
Proof.
  induction p as [p IH | p IH |]; simpl Exp_pos.
  - rewrite IH, Pos2Z.inj_xI.
    replace (2 * Z.pos p + 1)%Z with (Z.pos p + Z.pos p + 1)%Z by lia.
    rewrite !Z.pow_add_r, Z.pow_1_r by lia.
    rewrite <- Zmult_mod, Zmult_mod_idemp_l. done.
  - rewrite IH, Pos2Z.inj_xO.
    replace (2 * Z.pos p)%Z with (Z.pos p + Z.pos p)%Z by lia.
    rewrite Z.pow_add_r by lia. by rewrite <- Zmult_mod.
  - by rewrite Z.pow_1_r.
Qed.

Lemma Exp_spec (x y m : Z) : (0 ≤ y)%Z → Exp x y m = (x ^ y mod m)%Z.
Proof.
  intros Hy. destruct y as [| p | p]; [done | apply Exp_pos_spec | lia].
Qed.

Section roots_facts.
Context {cst : Constants}.

#[local] Abbreviation N := FieldElementsPerBlob.

Lemma bigToFr_stores (cell : Z) (b : Z) :
  Blobs.bigToFr (PointsTo cell) b = mret (PointsTo (b mod blsModulus)%Z).
Proof.
  unfold Blobs.bigToFr, bls.SetFr, store_ptr. by rewrite parse_decimal_big_String.
Qed.

(** X4. bigToFr loses nothing on its way through the decimal string: for
    every reduced integer b it leaves exactly b in the cell it is given,
    whatever the cell held, and with a nil destination it panics. *)
Theorem bigToFr_round_trip (cell : Z) (b : Z) :
  (0 ≤ b < blsModulus)%Z →
  Blobs.bigToFr (PointsTo cell) b = mret (PointsTo b)
  ∧ Blobs.bigToFr Nil b = go_panic NilDereference.
Proof.
  intros Hb. split; [| done].
  rewrite bigToFr_stores. by rewrite Z.mod_small.
Qed.

(** X5. With a modulus above 1, FieldElementsPerBlob a power of two that
    divides the modulus minus one, init leaves in rootsOfUnity a table of
    FieldElementsPerBlob elements whose entry i is the power of
    7^((P-1)/N) whose exponent is i bit-reversed: the consecutive powers of
    the root, in bit-reversed order. *)
Theorem init_roots_of_unity :
  (1 < blsModulus)%Z →
  Blobs.isPowerOfTwo (Z.of_nat N) = true →
  (Z.of_nat N < 2 ^ 63)%Z →
  ((blsModulus - 1) mod Z.of_nat N = 0)%Z →
  ∃ rootsOfUnity,
    Blobs.init = mret rootsOfUnity
    ∧ length rootsOfUnity = N
    ∧ ∀ i, i < N →
           rootsOfUnity !! i
           = Some (7 ^ ((blsModulus - 1) / Z.of_nat N
                        * reverse_bits (bit_width N) (Z.of_nat i))
                   mod blsModulus)%Z.
Proof.
  intros HP Hp HN Hdiv.
  destruct (power_of_two_width Hp HN) as (w & HNw & Hw).
  assert (0 < Z.of_nat N)%Z as Hpos by (rewrite HNw; apply Z.pow_pos_nonneg; lia).
  set (d := ((blsModulus - 1) / Z.of_nat N)%Z).
  assert (0 ≤ d)%Z as Hd by (apply Z.div_pos; lia).
  unfold Blobs.init, big_Mod, big_Div.
  rewrite !decide_False by lia. rewrite bind_ret.
  rewrite Z.abs_eq by lia. rewrite Hdiv.
  rewrite bool_decide_eq_true_2 by done. simpl negb. cbv iota.
  rewrite bind_ret.
  assert (Z.sgn (Z.of_nat N) * ((blsModulus - 1 - 0) / Z.of_nat N) = d)%Z as ->.
  { rewrite Z.sgn_pos, Z.sub_0_r by lia. subst d. lia. }
  rewrite Exp_spec by done. set (g := (7 ^ d mod blsModulus)%Z).
  rewrite make_nat, bind_ret.
  match goal with |- context [for_loop N 0 ?body ?s] =>
    destruct (for_loop_pure (R := Empty_set)
      (λ k '(cur, roots),
         cur = (g ^ Z.of_nat k mod blsModulus)%Z
         ∧ length roots = N
         ∧ ∀ j, j < k → roots !! j = Some (g ^ Z.of_nat j mod blsModulus)%Z)
      N body 0 s) as ([cur roots] & Hrun & _ & Hlen & Hget)
  end.
  - split; [| split].
    + simpl. rewrite Z.mod_small; [done | lia].
    + apply length_replicate.
    + intros j Hj. lia.
  - intros k [cur roots] Hk (-> & Hlen & Hget).
    destruct (lookup_lt_is_Some_2 roots k) as [cell Hcell]; [lia |].
    eexists (_, _). split.
    + rewrite (index_Some _ _ _ Hcell), bind_ret, bigToFr_stores, bind_ret.
      unfold deref. rewrite bind_ret, store_lt by lia. rewrite bind_ret.
      rewrite decide_False by lia. rewrite bind_ret. done.
    + rewrite Z.abs_eq by lia. split; [| split].
      * rewrite Zmult_mod_idemp_l, Nat2Z.inj_succ, Z.pow_succ_r by lia.
        f_equal. lia.
      * by rewrite length_insert.
      * intros j Hj. destruct (decide (j = k)) as [-> | Hne].
        -- rewrite list_lookup_insert_eq by lia. by rewrite Z.mod_mod by lia.
        -- rewrite list_lookup_insert_ne by done. apply Hget. lia.
  - rewrite Hrun, bind_ret. simpl finish. simpl snd.
    destruct (bitReversalPermutation_run roots w HNw Hw Hlen)
      as (out & Hout & Hlo & Hgo).
    exists out. split; [done |]. split; [done |]. intros i Hi.
    rewrite (bit_width_pow2 N w HNw), Hgo by done.
    pose proof (reverse_bits_range w (Z.of_nat i)) as Hr.
    rewrite Hget by lia. rewrite Z2Nat.id by lia. f_equal.
    subst g. rewrite Z.mod_pow_l, <- Z.pow_mul_r by lia. done.
Qed.

(** X6. init refuses an inconsistent configuration: with zero field elements
    per blob it panics on the division, and when FieldElementsPerBlob does
    not divide the modulus minus one it panics with its message; in both
    cases no table is built. *)
Theorem init_refuses :
  (N = 0 → Blobs.init = go_panic (Explicit "division by zero"))
  ∧ (0 < N → ((blsModulus - 1) mod Z.of_nat N ≠ 0)%Z →
     Blobs.init
     = go_panic (Explicit "MODULUS-1 % FieldElementsPerBlob should equal 0")).
Proof.
  split.
  - intros HN. unfold Blobs.init, big_Mod. rewrite HN. done.
  - intros HN Hdiv. unfold Blobs.init, big_Mod.
    rewrite decide_False by lia. rewrite bind_ret, Z.abs_eq by lia.
    by rewrite bool_decide_eq_false_2.
Qed.

End roots_facts.

(** X4 on the protocol's modulus. *)
Lemma bigToFr_round_trip_run :
  Blobs.bigToFr (cst := Mainnet.constants) (PointsTo 0%Z) 123456789
  = mret (PointsTo 123456789%Z)
  ∧ Blobs.bigToFr (cst := Mainnet.constants) Nil 123456789
    = go_panic NilDereference.
Proof.
  apply (bigToFr_round_trip (cst := Mainnet.constants)).
  split; vm_compute; [discriminate | reflexivity].
Defined.

(** X5 on the protocol's constants. *)
Lemma init_roots_of_unity_run :
  ∃ rootsOfUnity,
    Blobs.init (cst := Mainnet.constants) = mret rootsOfUnity
    ∧ length rootsOfUnity = 4096
    ∧ ∀ i, i < 4096 →
           rootsOfUnity !! i
           = Some (7 ^ ((blsModulus (Constants := Mainnet.constants) - 1) / 4096
                        * reverse_bits (bit_width 4096) (Z.of_nat i))
                   mod blsModulus (Constants := Mainnet.constants))%Z.
Proof.
  apply (init_roots_of_unity (cst := Mainnet.constants)).
  - vm_compute. reflexivity.
  - vm_compute. reflexivity.
  - vm_compute. reflexivity.
  - vm_compute. reflexivity.
Defined.

(** X6 with three field elements per blob and modulus 11. *)
Lemma init_refuses_run :
  Blobs.init (cst := {| FieldElementsPerBlob := 3; blsModulus := 11 |})
  = go_panic (Explicit "MODULUS-1 % FieldElementsPerBlob should equal 0").
Proof.
  destruct (init_refuses (cst := {| FieldElementsPerBlob := 3; blsModulus := 11 |}))
    as [_ Hdiv].
  apply Hdiv; [simpl; lia | vm_compute; discriminate].
Defined.

(** ** The aggregate verifier as a whole *)

Section aggregate_facts.
Context {cst : Constants} {col : Collaborators}.

(** How a call of hashToBlsField ends: with the serializer's error after one
    call, or in a panic after the digest. *)
Lemma hashToBlsField_cases {A} {msh : Marshaler A} (x : A) :
  (∃ err, MarshalSSZ x = inr err
          ∧ Blobs.hashToBlsField x = Run [Call_MarshalSSZ] (Done (inr err)))
  ∨ (∃ p, Blobs.hashToBlsField x = Run [Call_MarshalSSZ; Call_Hash] (Panicked p)).
Proof.
  unfold Blobs.hashToBlsField. destruct (MarshalSSZ x) as [m | err] eqn:Hm.
  - right. rewrite !bind_called. unfold big_Mod.
    destruct (decide (blsModulus = 0%Z)).
    + by eexists.
    + rewrite bind_ret. by eexists.
  - left. exists err. by rewrite bind_called.
Qed.

(** X7. hashToBlsField never returns a field element.  When the input does
    not serialize it returns the serializer's error without computing a
    digest; otherwise it panics after the digest. *)
Theorem hashToBlsField_never_returns_element {A} {msh : Marshaler A} (x : A) :
  (∀ f, outcome (Blobs.hashToBlsField x) ≠ Done (inl f))
  ∧ (∀ err, MarshalSSZ x = inr err →
            Blobs.hashToBlsField x = Run [Call_MarshalSSZ] (Done (inr err)))
  ∧ (∀ m, MarshalSSZ x = inl m →
          ∃ p, Blobs.hashToBlsField x
               = Run [Call_MarshalSSZ; Call_Hash] (Panicked p)).
Proof.
  destruct (hashToBlsField_cases x) as [(err & Hm & Hrun) | [p Hrun]];
    rewrite Hrun; (split; [done |]); split.
  - intros err' Hm'. congruence.
  - intros m Hm'. congruence.
  - intros err Hm. revert Hrun. unfold Blobs.hashToBlsField.
    rewrite Hm, bind_called. simpl. discriminate.
  - intros m _. by exists p.
Qed.

(** X8. ValidateBlobsSidecar never accepts a sidecar: no input makes it
    return nil.  It never gets past the first challenge derivation: of the
    recorded calls it makes at most MarshalSSZ and then hash.Hash, and never
    bls.FromCompressedG1, bls.LinCombG1, bls.PolyLinComb,
    bls.EvaluatePolyInEvaluationForm or kzg.VerifyKZGProof. *)
Theorem ValidateBlobsSidecar_never_succeeds (rootsOfUnity : list Z) (slot : Z)
    (root : list byte) (commitments : list (list byte))
    (sidecar : pointer eth.BlobsSidecar) :
  outcome (Blobs.ValidateBlobsSidecar rootsOfUnity slot root commitments sidecar)
  ≠ Done None
  ∧ (trace (Blobs.ValidateBlobsSidecar rootsOfUnity slot root commitments sidecar)
     `prefix_of` [Call_MarshalSSZ; Call_Hash]).
Proof.
  unfold Blobs.ValidateBlobsSidecar.
  destruct sidecar as [| sc]; [split; [done | apply prefix_nil] |].
  unfold deref. rewrite bind_ret.
  destruct (bool_decide (slot = _)); [| split; [done | apply prefix_nil]].
  destruct (bool_decide (root = _)); [| split; [done | apply prefix_nil]].
  destruct (bool_decide (length commitments = _));
    [| split; [done | apply prefix_nil]].
  simpl negb. cbv iota.
  destruct (hashToBlsField_cases
              {| eth.rData_Blobs := eth.Blobs sc;
                 eth.rData_Commitments := commitments |})
    as [(err & _ & ->) | [p ->]].
  - split; [done |]. by exists [Call_Hash].
  - split; [done |]. done.
Qed.

(** X9. The cheap checks of ValidateBlobsSidecar come first and in a fixed
    order: a wrong slot gives ErrInvalidBlobSlot whatever else is wrong, then
    a wrong root gives ErrInvalidBlobBeaconBlockRoot, then unequal lengths
    give ErrInvalidBlobsLength; in each case no recorded call has been made:
    neither the serializer nor the digest nor any curve, polynomial or
    proof-check function has been called (the root check itself goes
    through bytesutil.ToBytes32).  A nil sidecar is a panic. *)
Theorem ValidateBlobsSidecar_cheap_checks (rootsOfUnity : list Z) (slot : Z)
    (root : list byte) (commitments : list (list byte)) (sc : eth.BlobsSidecar) :
  (slot ≠ eth.BeaconBlockSlot sc →
   Blobs.ValidateBlobsSidecar rootsOfUnity slot root commitments (PointsTo sc)
   = mret (Some ErrInvalidBlobSlot))
  ∧ (slot = eth.BeaconBlockSlot sc →
     root ≠ bytesutil.ToBytes32 (eth.BeaconBlockRoot sc) →
     Blobs.ValidateBlobsSidecar rootsOfUnity slot root commitments (PointsTo sc)
     = mret (Some ErrInvalidBlobBeaconBlockRoot))
  ∧ (slot = eth.BeaconBlockSlot sc →
     root = bytesutil.ToBytes32 (eth.BeaconBlockRoot sc) →
     length commitments ≠ length (eth.Blobs sc) →
     Blobs.ValidateBlobsSidecar rootsOfUnity slot root commitments (PointsTo sc)
     = mret (Some ErrInvalidBlobsLength))
  ∧ Blobs.ValidateBlobsSidecar rootsOfUnity slot root commitments Nil
    = go_panic NilDereference.
Proof.
  unfold Blobs.ValidateBlobsSidecar, deref. rewrite bind_ret.
  repeat split.
  - intros Hs. by rewrite bool_decide_eq_false_2.
  - intros Hs Hr. rewrite bool_decide_eq_true_2 by done.
    by rewrite bool_decide_eq_false_2.
  - intros Hs Hr Hl. rewrite !bool_decide_eq_true_2 by done.
    by rewrite bool_decide_eq_false_2.
Qed.

End aggregate_facts.

(** X7 on a container whose serializer fails. *)
Lemma hashToBlsField_never_returns_element_run :
  Blobs.hashToBlsField (cst := Mainnet.constants) (col := Stub.collaborators)
    (msh := λ _ : unit, inr (Foreign 5)) tt
  = Run [Call_MarshalSSZ] (Done (inr (Foreign 5))).
Proof.
  destruct (hashToBlsField_never_returns_element (cst := Mainnet.constants)
              (col := Stub.collaborators) (msh := λ _ : unit, inr (Foreign 5)) tt)
    as (_ & Herr & _).
  apply Herr. reflexivity.
Defined.

(** X9 on a sidecar for slot 7 checked against slot 8, against another root
    and against one commitment. *)
Lemma ValidateBlobsSidecar_cheap_checks_run :
  Blobs.ValidateBlobsSidecar (cst := Mainnet.constants)
    (col := Stub.collaborators) [] 8 (replicate 32 x01) [replicate 48 x00]
    (PointsTo {| eth.BeaconBlockRoot := replicate 32 x00;
                 eth.BeaconBlockSlot := 7;
                 eth.Blobs := [];
                 eth.AggregatedProof := replicate 48 x00 |})
  = mret (Some ErrInvalidBlobSlot)
  ∧ Blobs.ValidateBlobsSidecar (cst := Mainnet.constants)
      (col := Stub.collaborators) [] 7 (replicate 32 x01) [replicate 48 x00]
      (PointsTo {| eth.BeaconBlockRoot := replicate 32 x00;
                   eth.BeaconBlockSlot := 7;
                   eth.Blobs := [];
                   eth.AggregatedProof := replicate 48 x00 |})
    = mret (Some ErrInvalidBlobBeaconBlockRoot)
  ∧ Blobs.ValidateBlobsSidecar (cst := Mainnet.constants)
      (col := Stub.collaborators) [] 7 (replicate 32 x00) [replicate 48 x00]
      (PointsTo {| eth.BeaconBlockRoot := replicate 32 x00;
                   eth.BeaconBlockSlot := 7;
                   eth.Blobs := [];
                   eth.AggregatedProof := replicate 48 x00 |})
    = mret (Some ErrInvalidBlobsLength).
Proof.
  split; [| split].
  - apply (ValidateBlobsSidecar_cheap_checks (cst := Mainnet.constants)
             (col := Stub.collaborators)).
    vm_compute. discriminate.
  - apply (ValidateBlobsSidecar_cheap_checks (cst := Mainnet.constants)
             (col := Stub.collaborators)).
    + reflexivity.
    + vm_compute. discriminate.
  - apply (ValidateBlobsSidecar_cheap_checks (cst := Mainnet.constants)
             (col := Stub.collaborators)).
    + reflexivity.
    + reflexivity.
    + vm_compute. discriminate.
Defined.

(** ** computePowers at the edges *)

Section computePowers_edges.
Context {cst : Constants}.

(** X10. computePowers on inputs outside n >= 1 and a valid pointer: for
    n = 0 it returns the empty sequence without reading x, even when x is
    nil; a negative n is a panic of make; a nil x with n >= 1 is a
    nil-dereference panic. *)
Theorem computePowers_edges (x : pointer Z) (n : Z) :
  Blobs.computePowers x 0 = mret []
  ∧ ((n < 0)%Z → Blobs.computePowers x n = go_panic MakeLenOutOfRange)
  ∧ ((1 ≤ n)%Z → Blobs.computePowers Nil n = go_panic NilDereference).
Proof.
  split; [| split].
  - unfold Blobs.computePowers, make. rewrite decide_True by lia.
    rewrite bind_ret. simpl for_loop. by rewrite bind_ret.
  - intros Hn. unfold Blobs.computePowers, make. by rewrite decide_False by lia.
  - intros Hn. unfold Blobs.computePowers, make. rewrite decide_True by lia.
    rewrite bind_ret, length_replicate.
    destruct (Z.to_nat n) as [| m] eqn:Hm; [lia |].
    cbn beta iota delta [for_loop].
    rewrite store_lt by (simpl; lia). by rewrite bind_ret.
Qed.

End computePowers_edges.

(** X10 on the protocol's modulus, for n = -1 and for a nil x with n = 3. *)
Lemma computePowers_edges_run :
  Blobs.computePowers (cst := Mainnet.constants) (PointsTo 5%Z) (-1)
  = go_panic MakeLenOutOfRange
  ∧ Blobs.computePowers (cst := Mainnet.constants) Nil 3
    = go_panic NilDereference.
Proof.
  split.
  - apply (computePowers_edges (cst := Mainnet.constants) (PointsTo 5%Z) (-1)).
    vm_compute. reflexivity.
  - apply (computePowers_edges (cst := Mainnet.constants) Nil 3).
    vm_compute. discriminate.
Defined.

(** ** Loops that call a collaborator once per round *)

Lemma bind_Run {A B} (t : list call) (a : A) (k : A → go B) :
  (Run t (Done a) ≫= k) = Run (t ++ trace (k a)) (outcome (k a)).
Proof. done. Qed.

Lemma for_loop_calls {S R} (I : nat → S → Prop) (c : call) todo
    (body : nat → S → go (flow S R)) :
  ∀ i s,
    I i s →
    (∀ k s, i ≤ k < i + todo → I k s →
            ∃ s', body k s = Run [c] (Done (Continue s')) ∧ I (Datatypes.S k) s') →
    ∃ s', for_loop todo i body s = Run (replicate todo c) (Done (Continue s'))
          ∧ I (i + todo) s'.
Proof.
  induction todo as [| todo IH]; intros i s Hi Hbody.
  - exists s. rewrite Nat.add_0_r. done.
  - destruct (Hbody i s ltac:(lia) Hi) as (s1 & Hs1 & HI1).
    destruct (IH (Datatypes.S i) s1 HI1) as (s' & Hs' & HI').
    { intros k s2 Hk. apply Hbody. lia. }
    exists s'. simpl for_loop. rewrite Hs1, bind_Run, Hs'. split; [done |].
    by replace (i + Datatypes.S todo) with (Datatypes.S i + todo) by lia.
Qed.

Lemma for_loop_calls_return {S R} (I : nat → S → Prop) (c : call) todo
    (body : nat → S → go (flow S R)) (r : R) :
  ∀ more i s,
    I i s →
    more < todo →
    (∀ k s, i ≤ k < i + more → I k s →
            ∃ s', body k s = Run [c] (Done (Continue s')) ∧ I (Datatypes.S k) s') →
    (∀ s, I (i + more) s → body (i + more) s = Run [c] (Done (Return r))) →
    for_loop todo i body s = Run (replicate (Datatypes.S more) c) (Done (Return r)).
Proof.
  induction todo as [| todo IH]; intros more i s Hi Hmore Hbody Hlast; [lia |].
  simpl for_loop. destruct more as [| more].
  - rewrite Nat.add_0_r in Hlast. by rewrite (Hlast s Hi), bind_Run.
  - destruct (Hbody i s ltac:(lia) Hi) as (s1 & -> & HI1).
    rewrite bind_Run.
    rewrite (IH more (Datatypes.S i) s1 HI1); [done | lia | |].
    + intros k s2 Hk. apply Hbody. lia.
    + intros s2. replace (Datatypes.S i + more) with (i + Datatypes.S more) by lia.
      apply Hlast.
Qed.

(** ** g1LinComb and the curve library *)

Section g1LinComb_calls.
Context {col : Collaborators}.

Lemma g1LinComb_point_run_ok (points : list (list byte)) i p g
    (g1s : list G1Point) :
  points !! i = Some p → FromCompressedG1 p = inl g → i < length g1s →
  Blobs.g1LinComb_point points i g1s
  = Run [Call_FromCompressedG1] (Done (Continue (<[i:=g]> g1s))).
Proof.
  intros Hp Hg Hi. unfold Blobs.g1LinComb_point.
  rewrite (index_Some _ _ _ Hp), bind_ret, bind_called, Hg, store_lt by done.
  by rewrite bind_ret.
Qed.

Lemma g1LinComb_point_run_err (points : list (list byte)) i p err
    (g1s : list G1Point) :
  points !! i = Some p → FromCompressedG1 p = inr err →
  Blobs.g1LinComb_point points i g1s
  = Run [Call_FromCompressedG1] (Done (Return err)).
Proof.
  intros Hp Herr. unfold Blobs.g1LinComb_point.
  by rewrite (index_Some _ _ _ Hp), bind_ret, bind_called, Herr.
Qed.

(** X11. g1LinComb decompresses the points in order and stops at the first
    one that fails: with lists of equal length, when the point at index i is
    the first that fails the library has been asked to decompress exactly
    i + 1 points and never to combine them, and when all n points
    decompress it has been asked to decompress n points and then to combine
    them once. *)
Theorem g1LinComb_calls (points : list (list byte)) (scalars : list Z) :
  length points = length scalars →
  (∀ i p err,
     points !! i = Some p → FromCompressedG1 p = inr err →
     (∀ j p', j < i → points !! j = Some p' → ∃ g, FromCompressedG1 p' = inl g) →
     Blobs.g1LinComb points scalars
     = Run (replicate (Datatypes.S i) Call_FromCompressedG1) (Done (inr err)))
  ∧ (∀ g1s,
       Forall2 (λ p g, FromCompressedG1 p = inl g) points g1s →
       Blobs.g1LinComb points scalars
       = Run (replicate (length points) Call_FromCompressedG1 ++ [Call_LinCombG1])
             (Done (inl (ToCompressedG1 (LinCombG1 g1s scalars))))).
Proof.
  intros Hlen. split.
  - intros i p err Hp Herr Hbefore. unfold Blobs.g1LinComb.
    rewrite bool_decide_eq_true_2 by done. simpl negb. cbv iota.
    rewrite make_nat, bind_ret, length_replicate.
    pose proof (lookup_lt_Some _ _ _ Hp) as Hi.
    rewrite (for_loop_calls_return (λ _ acc, length acc = length points)
               Call_FromCompressedG1 (length points)
               (Blobs.g1LinComb_point points) err i 0).
    + rewrite bind_Run. simpl. by rewrite app_nil_r.
    + apply length_replicate.
    + done.
    + intros k acc Hk Hal.
      destruct (lookup_lt_is_Some_2 points k) as [q Hq]; [lia |].
      destruct (Hbefore k q) as [g Hg]; [lia | done |].
      exists (<[k:=g]> acc). split; [| by rewrite length_insert].
      apply (g1LinComb_point_run_ok points k q); [done | done | lia].
    + intros acc _. by apply (g1LinComb_point_run_err points i p).
  - intros g1s Hall. unfold Blobs.g1LinComb.
    rewrite bool_decide_eq_true_2 by done. simpl negb. cbv iota.
    rewrite make_nat, bind_ret, length_replicate.
    pose proof (Forall2_length Hall) as Hlg.
    destruct (for_loop_calls (R := error)
      (λ k acc, length acc = length points ∧ ∀ j, j < k → acc !! j = g1s !! j)
      Call_FromCompressedG1 (length points) (Blobs.g1LinComb_point points) 0
      (replicate (length points) G1_zero)) as (acc & Hrun & Hal & Hget).
    + split; [apply length_replicate | intros; lia].
    + intros k acc Hk [Hal Hget].
      destruct (lookup_lt_is_Some_2 points k) as [p Hp]; [lia |].
      destruct (Forall2_lookup_l _ _ _ _ _ Hall Hp) as (g & Hg & Hpg).
      exists (<[k:=g]> acc). split.
      * apply (g1LinComb_point_run_ok points k p); [done | done | lia].
      * split; [by rewrite length_insert |]. intros j Hj.
        destruct (decide (j = k)) as [-> | Hne].
        -- rewrite list_lookup_insert_eq by lia. done.
        -- rewrite list_lookup_insert_ne by done. apply Hget. lia.
    + rewrite Hrun, bind_Run, bind_called. simpl.
      assert (acc = g1s) as ->; [| done].
      apply list_eq. intros j.
      destruct (decide (j < length points)) as [Hj | Hj].
      * apply Hget. lia.
      * rewrite !lookup_ge_None_2 by lia. done.
Qed.

End g1LinComb_calls.

(** X11 on three commitments of which the second is one byte long. *)
Lemma g1LinComb_calls_run :
  Blobs.g1LinComb (col := Stub.collaborators)
    [replicate 48 x00; [x01]; replicate 48 x02] [1; 2; 3]%Z
  = Run [Call_FromCompressedG1; Call_FromCompressedG1] (Done (inr (Foreign 1))).
Proof.
  destruct (g1LinComb_calls (col := Stub.collaborators)
              [replicate 48 x00; [x01]; replicate 48 x02] [1; 2; 3]%Z)
    as [Hfirst _]; [reflexivity |].
  apply (Hfirst 1 [x01]); [reflexivity | reflexivity |].
  intros [| j] p' Hj Hp'; [| lia].
  injection Hp' as <-. eexists. reflexivity.
Defined.

(** ** polyLinComb on arbitrary blobs *)

Lemma for_loop_must_panic {S R} (I : nat → S → Prop) todo
    (body : nat → S → go (flow S R)) stop :
  ∀ i s,
    I i s →
    i ≤ stop < i + todo →
    (∀ k s, i ≤ k < stop → I k s →
            (∃ s', body k s = mret (Continue s') ∧ I (Datatypes.S k) s')
            ∨ ∃ p, body k s = go_panic p) →
    (∀ s, I stop s → ∃ p, body stop s = go_panic p) →
    ∃ p, for_loop todo i body s = go_panic p.
Proof.
  induction todo as [| todo IH]; intros i s Hi Hstop Hbody Hlast; [lia |].
  simpl for_loop. destruct (decide (i = stop)) as [-> | Hne].
  - destruct (Hlast s Hi) as [p ->]. by exists p.
  - destruct (Hbody i s ltac:(lia) Hi) as [(s1 & -> & HI1) | [p ->]].
    + rewrite bind_ret. apply (IH (Datatypes.S i) s1 HI1); [lia | | done].
      intros k s2 Hk. apply Hbody. lia.
    + by exists p.
Qed.

Lemma ToBytes32_le_int (b : list byte) :
  length b ≤ 32 → le_int (bytesutil.ToBytes32 b) = le_int b.
Proof.
  intros Hb. unfold bytesutil.ToBytes32, bytesutil.ToBytesN.
  rewrite copy_into_zeros, le_int_app_zeros. by rewrite take_ge.
Qed.

Section polyLinComb_more.
Context {cst : Constants} {col : Collaborators}.

#[local] Abbreviation N := FieldElementsPerBlob.

(** X12. What one round of the inner loop of polyLinComb decodes: when the
    cut is inside the capacity and the index inside r, the element stored at
    r[j] is the little-endian value of the 31 bytes blob[j*32 .. j*32+30].
    Byte j*32+31, the high byte of the chunk, is not read, so the round
    never reports an invalid value. *)
Theorem polyLinComb_chunk_reads_31_bytes (blob : slice byte) (j : nat)
    (r : list Z) :
  (2 ^ 248 ≤ blsModulus)%Z →
  j < length r →
  j * 32 + 31 ≤ cap blob →
  Blobs.polyLinComb_chunk blob j r
  = mret (Continue
            (<[j := le_int (take 31 (drop (j * 32) (visible blob ++ spare blob)))]> r)).
Proof.
  intros HP Hj Hcap. unfold Blobs.polyLinComb_chunk, reslice.
  rewrite decide_True by lia. rewrite bind_ret.
  destruct (lookup_lt_is_Some_2 r j) as [v Hv]; [lia |].
  rewrite (index_Some _ _ _ Hv), bind_ret.
  replace (j * 32 + 31 - j * 32) with 31 by lia.
  set (b := take 31 (drop (j * 32) (visible blob ++ spare blob))).
  assert (length b ≤ 31) as Hb by (subst b; rewrite length_take; lia).
  pose proof (le_int_ToBytes32_short b Hb) as Hdec.
  unfold bls.FrFrom32. rewrite decide_True by lia.
  rewrite store_lt by lia. rewrite bind_ret.
  by rewrite ToBytes32_le_int by lia.
Qed.

Lemma polyLinComb_chunk_cases (blob : slice byte) (j : nat) (r : list Z) :
  (2 ^ 248 ≤ blsModulus)%Z → length r = N →
  (j < N ∧ ∃ r', Blobs.polyLinComb_chunk blob j r = mret (Continue r')
                 ∧ length r' = N)
  ∨ ∃ p, Blobs.polyLinComb_chunk blob j r = go_panic p.
Proof.
  intros HP Hr. unfold Blobs.polyLinComb_chunk, reslice.
  destruct (decide (j * 32 ≤ j * 32 + 31 ∧ j * 32 + 31 ≤ cap blob));
    [| right; by eexists].
  rewrite bind_ret. destruct (decide (j < N)) as [Hj | Hj].
  - left. split; [done |].
    destruct (lookup_lt_is_Some_2 r j) as [v Hv]; [lia |].
    rewrite (index_Some _ _ _ Hv), bind_ret.
    match goal with |- context [bytesutil.ToBytes32 ?b] =>
      pose proof (le_int_ToBytes32_short b) as Hdec
    end.
    rewrite length_take in Hdec.
    unfold bls.FrFrom32. rewrite decide_True by lia.
    rewrite store_lt by lia. rewrite bind_ret.
    eexists. split; [done |]. by rewrite length_insert.
  - right. rewrite index_None by (apply lookup_ge_None_2; lia). by eexists.
Qed.

Lemma polyLinComb_blob_panics (p : pointer v1.Blob)
    (rest : list (pointer v1.Blob)) (out : list (list Z)) :
  (2 ^ 248 ≤ blsModulus)%Z →
  ∃ q, Blobs.polyLinComb_blob (p :: rest) 0 out = go_panic q.
Proof.
  intros HP. unfold Blobs.polyLinComb_blob. rewrite make_nat, bind_ret.
  rewrite (index_Some _ 0 p) by done. rewrite bind_ret.
  destruct p as [| b]; [by eexists |].
  unfold deref. rewrite bind_ret.
  destruct (for_loop_must_panic (λ _ r, length r = N) (N + 1)
              (Blobs.polyLinComb_chunk (v1.Data b)) N 0
              (replicate N bls.ZERO)) as [q Hq].
  - apply length_replicate.
  - lia.
  - intros k r Hk Hr.
    destruct (polyLinComb_chunk_cases (v1.Data b) k r HP Hr)
      as [(_ & r' & Hrun & Hr') | Hpanic]; [left; by exists r' | by right].
  - intros r Hr.
    destruct (polyLinComb_chunk_cases (v1.Data b) N r HP Hr)
      as [[Hlt _] | Hpanic]; [lia | done].
  - rewrite Hq. by exists q.
Qed.

(** X13. polyLinComb returns only for the empty list of blobs, where it
    hands an empty matrix to bls.PolyLinComb and returns its answer.  For
    every non-empty list, whatever the blobs hold and however long they are,
    it panics before calling the library: it returns neither a polynomial
    nor its own "invalid value in blob" error. *)
Theorem polyLinComb_returns_only_when_empty (blobs : list (pointer v1.Blob))
    (scalars : list Z) :
  (2 ^ 248 ≤ blsModulus)%Z →
  Blobs.polyLinComb [] scalars = called Call_PolyLinComb (PolyLinComb [] scalars)
  ∧ (blobs ≠ [] → ∃ p, Blobs.polyLinComb blobs scalars = go_panic p).
Proof.
  intros HP. split.
  - unfold Blobs.polyLinComb. simpl length. rewrite make_nat, bind_ret.
    simpl for_loop. by rewrite bind_ret.
  - intros Hne. destruct blobs as [| p rest]; [done |].
    unfold Blobs.polyLinComb. rewrite make_nat, bind_ret.
    simpl length. cbn beta iota delta [for_loop].
    destruct (polyLinComb_blob_panics p rest
                (replicate (Datatypes.S (length rest)) []) HP) as [q ->].
    by exists q.
Qed.

End polyLinComb_more.

(** X12 on a chunk that is 1 followed by zeros and a high byte 0xff: the
    element stored is 1. *)
Lemma polyLinComb_chunk_reads_31_bytes_run :
  Blobs.polyLinComb_chunk (cst := Mainnet.constants)
    (Slice (x01 :: replicate 30 x00 ++ [xff]) []) 0 [0; 0]%Z
  = mret (Continue [1; 0]%Z).
Proof.
  rewrite (polyLinComb_chunk_reads_31_bytes (cst := Mainnet.constants)).
  - vm_compute. reflexivity.
  - vm_compute. discriminate.
  - simpl. lia.
  - vm_compute. lia.
Defined.

(** X13 on a nil blob and on a blob of three bytes. *)
Lemma polyLinComb_returns_only_when_empty_run :
  (∃ p, Blobs.polyLinComb (cst := Mainnet.constants) (col := Stub.collaborators)
          [Nil] [1%Z] = go_panic p)
  ∧ (∃ p, Blobs.polyLinComb (cst := Mainnet.constants) (col := Stub.collaborators)
            [PointsTo {| v1.Data := Slice [x01; x02; x03] [] |}] [1%Z]
          = go_panic p).
Proof.
  split.
  - apply (polyLinComb_returns_only_when_empty (cst := Mainnet.constants)
             (col := Stub.collaborators)); [vm_compute; discriminate | done].
  - apply (polyLinComb_returns_only_when_empty (cst := Mainnet.constants)
             (col := Stub.collaborators)); [vm_compute; discriminate | done].
Defined.

(** ** The per-blob verifier on arbitrary sidecars *)

Section per_blob_more.
Context {cst : Constants} {col : Collaborators}.

#[local] Abbreviation N := FieldElementsPerBlob.

Lemma decode_blob_padded (chunks : list (list byte)) :
  length chunks ≤ N →
  ∃ blob,
    PerBlob.decode_blob chunks = mret blob
    ∧ length blob = N
    ∧ ∀ i, length chunks ≤ i < N → blob !! i = Some (replicate 32 x00).
Proof.
  intros Hlen. unfold PerBlob.decode_blob.
  match goal with |- context [for_loop ?n 0 ?body ?s] =>
    destruct (for_loop_pure (R := Empty_set)
      (λ k blob, length blob = N
                 ∧ ∀ i, k ≤ i < N → blob !! i = Some (replicate 32 x00))
      n body 0 s) as (blob & Hrun & Hlen' & Hpad)
  end.
  - split; [apply length_replicate |]. intros i Hi.
    apply lookup_replicate_2. lia.
  - intros k blob Hk [Hb Hpad].
    destruct (lookup_lt_is_Some_2 chunks k) as [b Hkb]; [lia |].
    exists (<[k:=copy (replicate 32 x00) b]> blob). split.
    + unfold PerBlob.decode_chunk.
      rewrite (index_Some _ _ _ Hkb), bind_ret, store_lt by lia.
      by rewrite bind_ret.
    + split; [by rewrite length_insert |]. intros i Hi.
      rewrite list_lookup_insert_ne by lia. apply Hpad. lia.
  - exists blob. rewrite Hrun, bind_ret. done.
Qed.

Lemma decode_blob_long (chunks : list (list byte)) :
  N < length chunks →
  outcome (PerBlob.decode_blob chunks) = Panicked IndexOutOfRange.
Proof.
  intros Hlen. unfold PerBlob.decode_blob. rewrite outcome_bind.
  rewrite (for_loop_exits (λ _ blob, length blob = N) (length chunks)
             (PerBlob.decode_chunk chunks) N (Panicked IndexOutOfRange)).
  - done.
  - apply length_replicate.
  - lia.
  - intros k blob Hk Hb.
    destruct (lookup_lt_is_Some_2 chunks k) as [b Hkb]; [lia |].
    exists (<[k:=copy (replicate 32 x00) b]> blob).
    split; [| by rewrite length_insert].
    unfold PerBlob.decode_chunk.
    rewrite (index_Some _ _ _ Hkb), bind_ret, store_lt by lia.
    by rewrite bind_ret.
  - intros blob Hb.
    destruct (lookup_lt_is_Some_2 chunks N) as [b Hkb]; [lia |].
    unfold PerBlob.decode_chunk.
    rewrite (index_Some _ _ _ Hkb), bind_ret.
    unfold store. rewrite decide_False by lia. done.
  - done.
Qed.

(** X14. The blob the per-blob verifier builds always has
    FieldElementsPerBlob elements: a sidecar blob with fewer chunks is
    filled up with all-zero field elements, and one with more chunks is not
    truncated but ends the call in an index-out-of-range panic. *)
Theorem decode_blob_sizes (chunks : list (list byte)) :
  (length chunks ≤ N →
   ∃ blob,
     PerBlob.decode_blob chunks = mret blob
     ∧ length blob = N
     ∧ ∀ i, length chunks ≤ i < N → blob !! i = Some (replicate 32 x00))
  ∧ (N < length chunks →
     outcome (PerBlob.decode_blob chunks) = Panicked IndexOutOfRange).
Proof. split; [apply decode_blob_padded | apply decode_blob_long]. Qed.

(** A recomputation that ends normally has called ComputeCommitment once
    and nothing else. *)
Lemma blob_to_kzg_Done (p : pointer PerBlob.Blob) (c : list byte * bool) :
  outcome (PerBlob.blob_to_kzg p) = Done c →
  PerBlob.blob_to_kzg p = Run [Call_ComputeCommitment] (Done c).
Proof.
  unfold PerBlob.blob_to_kzg. destruct p as [| msg]; [done |].
  unfold deref. rewrite bind_ret.
  destruct (decide (length (PerBlob.Blob_ msg) ≤ N)) as [Hle | Hgt].
  - destruct (decode_blob_padded _ Hle) as (blob & -> & _).
    rewrite bind_ret. simpl. by intros [= ->].
  - rewrite outcome_bind, decode_blob_long by lia. done.
Qed.

Lemma VerifyBlobsSidecar_round_run (expected : list (list byte))
    (sc : PerBlob.BlobsSidecar) i e p kzg ok :
  expected !! i = Some e → PerBlob.Blobs sc !! i = Some p →
  outcome (PerBlob.blob_to_kzg p) = Done (kzg, ok) →
  PerBlob.VerifyBlobsSidecar_round expected sc i tt
  = Run [Call_ComputeCommitment]
        (Done (if negb ok then Return ErrCouldNotComputeCommitment
               else if negb (bool_decide (kzg = e)) then Return ErrMissmatchKzgs
               else Continue tt)).
Proof.
  intros He Hp Hc. unfold PerBlob.VerifyBlobsSidecar_round.
  rewrite (index_Some _ _ _ He), bind_ret, (index_Some _ _ _ Hp), bind_ret.
  rewrite (blob_to_kzg_Done p _ Hc), bind_Run.
  by destruct ok, (bool_decide (kzg = e)).
Qed.

(** X15. The per-blob verifier recomputes commitments in order and stops at
    the first blob that does not pass.  Past the three checks, when all n
    blobs pass it has called ComputeCommitment n times and returns nil; when
    the blob at index i is the first whose commitment differs or cannot be
    computed, it has called ComputeCommitment exactly i + 1 times. *)
Theorem VerifyBlobsSidecar_calls (slot : Z) (root : list byte)
    (expected : list (list byte)) (sc : PerBlob.BlobsSidecar) :
  slot = PerBlob.BeaconBlockSlot sc →
  root = bytesutil.ToBytes32 (PerBlob.BeaconBlockRoot sc) →
  length expected = length (PerBlob.Blobs sc) →
  (Forall2 (λ p e, outcome (PerBlob.blob_to_kzg p) = Done (e, true))
     (PerBlob.Blobs sc) expected →
   PerBlob.VerifyBlobsSidecar slot root expected (PointsTo sc)
   = Run (replicate (length expected) Call_ComputeCommitment) (Done None))
  ∧ ∀ i p e kzg ok,
      PerBlob.Blobs sc !! i = Some p → expected !! i = Some e →
      Forall2 (λ p e, outcome (PerBlob.blob_to_kzg p) = Done (e, true))
        (take i (PerBlob.Blobs sc)) (take i expected) →
      outcome (PerBlob.blob_to_kzg p) = Done (kzg, ok) →
      ok = false ∨ kzg ≠ e →
      PerBlob.VerifyBlobsSidecar slot root expected (PointsTo sc)
      = Run (replicate (Datatypes.S i) Call_ComputeCommitment)
            (Done (Some (if ok then ErrMissmatchKzgs
                         else ErrCouldNotComputeCommitment))).
Proof.
  intros Hslot Hroot Hlen.
  assert (PerBlob.VerifyBlobsSidecar slot root expected (PointsTo sc)
          = (f ← for_loop (length expected) 0
                   (PerBlob.VerifyBlobsSidecar_round expected sc) tt;
             match f with
             | Return err => mret (Some err)
             | Continue _ => mret None
             end)) as ->.
  { unfold PerBlob.VerifyBlobsSidecar, deref.
    rewrite bind_ret, !bool_decide_eq_true_2 by done. done. }
  split.
  - intros Hall. apply Forall2_same_length_lookup in Hall as [_ Hall].
    destruct (for_loop_calls (R := error) (λ _ _, True) Call_ComputeCommitment
                (length expected)
                (PerBlob.VerifyBlobsSidecar_round expected sc) 0 tt)
      as ([] & -> & _); [done | |].
    + intros k [] Hk _. exists tt. split; [| done].
      destruct (lookup_lt_is_Some_2 expected k) as [e He]; [lia |].
      destruct (lookup_lt_is_Some_2 (PerBlob.Blobs sc) k) as [p Hp]; [lia |].
      rewrite (VerifyBlobsSidecar_round_run expected sc k e p e true He Hp
                 (Hall k p e Hp He)).
      by rewrite bool_decide_eq_true_2.
    + rewrite bind_Run. simpl. by rewrite app_nil_r.
  - intros i p e kzg ok Hp He Hbefore Hc Hfail.
    apply Forall2_same_length_lookup in Hbefore as [_ Hbefore].
    pose proof (lookup_lt_Some _ _ _ He) as Hi.
    rewrite (for_loop_calls_return (λ _ _, True) Call_ComputeCommitment
               (length expected)
               (PerBlob.VerifyBlobsSidecar_round expected sc)
               (if ok then ErrMissmatchKzgs else ErrCouldNotComputeCommitment)
               i 0 tt).
    + rewrite bind_Run. simpl. by rewrite app_nil_r.
    + done.
    + done.
    + intros k [] Hk _. exists tt. split; [| done].
      destruct (lookup_lt_is_Some_2 expected k) as [e' He']; [lia |].
      destruct (lookup_lt_is_Some_2 (PerBlob.Blobs sc) k) as [p' Hp']; [lia |].
      rewrite (VerifyBlobsSidecar_round_run expected sc k e' p' e' true He' Hp').
      * by rewrite bool_decide_eq_true_2.
      * apply (Hbefore k); rewrite lookup_take_lt; done || lia.
    + intros [] _. simpl.
      rewrite (VerifyBlobsSidecar_round_run expected sc i e p kzg ok He Hp Hc).
      destruct ok; simpl; [| done].
      destruct Hfail as [| Hne]; [done |]. by rewrite bool_decide_eq_false_2.
Qed.

(** X16. A malformed blob is a panic, not an error value.  Past the three
    checks, when the blobs before index i pass and the blob at index i is a
    nil pointer the call panics with a nil dereference, and when it has more
    than FieldElementsPerBlob chunks the call panics with an index out of
    range. *)
Theorem VerifyBlobsSidecar_malformed_blob (slot : Z) (root : list byte)
    (expected : list (list byte)) (sc : PerBlob.BlobsSidecar) i p :
  slot = PerBlob.BeaconBlockSlot sc →
  root = bytesutil.ToBytes32 (PerBlob.BeaconBlockRoot sc) →
  length expected = length (PerBlob.Blobs sc) →
  PerBlob.Blobs sc !! i = Some p →
  Forall2 (λ p e, outcome (PerBlob.blob_to_kzg p) = Done (e, true))
    (take i (PerBlob.Blobs sc)) (take i expected) →
  (p = Nil →
   outcome (PerBlob.VerifyBlobsSidecar slot root expected (PointsTo sc))
   = Panicked NilDereference)
  ∧ (∀ msg, p = PointsTo msg → N < length (PerBlob.Blob_ msg) →
     outcome (PerBlob.VerifyBlobsSidecar slot root expected (PointsTo sc))
     = Panicked IndexOutOfRange).
Proof.
  intros Hslot Hroot Hlen Hp Hbefore.
  apply Forall2_same_length_lookup in Hbefore as [_ Hbefore].
  pose proof (lookup_lt_Some _ _ _ Hp) as Hi.
  destruct (lookup_lt_is_Some_2 expected i) as [e He]; [lia |].
  assert (∀ q, outcome (PerBlob.blob_to_kzg p) = Panicked q →
               outcome (PerBlob.VerifyBlobsSidecar slot root expected (PointsTo sc))
               = Panicked q) as Hpanic.
  { intros q Hq.
    rewrite (VerifyBlobsSidecar_checks slot root expected sc Hslot Hroot Hlen).
    rewrite (for_loop_exits (λ _ _, True) (length expected)
               (PerBlob.VerifyBlobsSidecar_round expected sc) i (Panicked q));
      [done | done | lia | | | done].
    - intros k [] Hk _. exists tt. split; [| done].
      destruct (lookup_lt_is_Some_2 expected k) as [e' He']; [lia |].
      destruct (lookup_lt_is_Some_2 (PerBlob.Blobs sc) k) as [p' Hp']; [lia |].
      rewrite (VerifyBlobsSidecar_round_outcome expected sc k e' p' He' Hp').
      rewrite (Hbefore k p' e'), bool_decide_eq_true_2; [done.. | |];
        rewrite lookup_take_lt; done || lia.
    - intros [] _.
      by rewrite (VerifyBlobsSidecar_round_outcome expected sc i e p He Hp), Hq. }
  split.
  - intros ->. by apply Hpanic.
  - intros msg -> Hlong. apply Hpanic. unfold PerBlob.blob_to_kzg, deref.
    rewrite bind_ret, outcome_bind. by rewrite decode_blob_long.
Qed.

(** X17. The cheap checks of VerifyBlobsSidecar come first and in a fixed
    order: a wrong slot gives ErrInvalidBlobSlot whatever else is wrong, then
    a wrong root gives ErrInvalidBlobBeaconBlockRoot, then unequal lengths
    give ErrInvalidBlobsLength; in each case no commitment has been
    computed.  A nil sidecar is a panic. *)
Theorem VerifyBlobsSidecar_cheap_checks (slot : Z) (root : list byte)
    (expected : list (list byte)) (sc : PerBlob.BlobsSidecar) :
  (slot ≠ PerBlob.BeaconBlockSlot sc →
   PerBlob.VerifyBlobsSidecar slot root expected (PointsTo sc)
   = mret (Some ErrInvalidBlobSlot))
  ∧ (slot = PerBlob.BeaconBlockSlot sc →
     root ≠ bytesutil.ToBytes32 (PerBlob.BeaconBlockRoot sc) →
     PerBlob.VerifyBlobsSidecar slot root expected (PointsTo sc)
     = mret (Some ErrInvalidBlobBeaconBlockRoot))
  ∧ (slot = PerBlob.BeaconBlockSlot sc →
     root = bytesutil.ToBytes32 (PerBlob.BeaconBlockRoot sc) →
     length expected ≠ length (PerBlob.Blobs sc) →
     PerBlob.VerifyBlobsSidecar slot root expected (PointsTo sc)
     = mret (Some ErrInvalidBlobsLength))
  ∧ PerBlob.VerifyBlobsSidecar slot root expected Nil = go_panic NilDereference.
Proof.
  unfold PerBlob.VerifyBlobsSidecar, deref. rewrite bind_ret.
  repeat split.
  - intros Hs. by rewrite bool_decide_eq_false_2.
  - intros Hs Hr. rewrite bool_decide_eq_true_2 by done.
    by rewrite bool_decide_eq_false_2.
  - intros Hs Hr Hl. rewrite !bool_decide_eq_true_2 by done.
    by rewrite bool_decide_eq_false_2.
Qed.

End per_blob_more.

(** X14 on a blob without chunks and on one of 4097 chunks. *)
Lemma decode_blob_sizes_run :
  (∃ blob,
     PerBlob.decode_blob (cst := Mainnet.constants) [] = mret blob
     ∧ length blob = 4096
     ∧ ∀ i, length ([] : list (list byte)) ≤ i < 4096 →
            blob !! i = Some (replicate 32 x00))
  ∧ outcome (PerBlob.decode_blob (cst := Mainnet.constants)
               (replicate 4097 (replicate 32 x00)))
    = Panicked IndexOutOfRange.
Proof.
  split.
  - apply (decode_blob_sizes (cst := Mainnet.constants) []). vm_compute. lia.
  - apply (decode_blob_sizes (cst := Mainnet.constants)).
    rewrite length_replicate. apply Nat.ltb_lt. vm_compute. reflexivity.
Defined.

(** X15 on a sidecar of two blobs whose second expected commitment is
    wrong. *)
Lemma VerifyBlobsSidecar_calls_run :
  PerBlob.VerifyBlobsSidecar (cst := Mainnet.constants)
    (col := Stub.collaborators) 7 (replicate 32 x00)
    [replicate 48 x00; replicate 48 x01]
    (PointsTo {| PerBlob.BeaconBlockRoot := replicate 32 x00;
                 PerBlob.BeaconBlockSlot := 7;
                 PerBlob.Blobs :=
                   [PointsTo {| PerBlob.Blob_ := [replicate 32 x00] |};
                    PointsTo {| PerBlob.Blob_ := [replicate 32 x00] |}] |})
  = Run [Call_ComputeCommitment; Call_ComputeCommitment]
        (Done (Some ErrMissmatchKzgs)).
Proof.
  destruct (VerifyBlobsSidecar_calls (cst := Mainnet.constants)
              (col := Stub.collaborators) 7 (replicate 32 x00)
              [replicate 48 x00; replicate 48 x01]
              {| PerBlob.BeaconBlockRoot := replicate 32 x00;
                 PerBlob.BeaconBlockSlot := 7;
                 PerBlob.Blobs :=
                   [PointsTo {| PerBlob.Blob_ := [replicate 32 x00] |};
                    PointsTo {| PerBlob.Blob_ := [replicate 32 x00] |}] |})
    as [_ Hfirst]; [reflexivity.. |].
  apply (Hfirst 1 (PointsTo {| PerBlob.Blob_ := [replicate 32 x00] |})
           (replicate 48 x01) (replicate 48 x00) true).
  - reflexivity.
  - reflexivity.
  - constructor; [vm_compute; reflexivity | constructor].
  - vm_compute. reflexivity.
  - right. vm_compute. discriminate.
Defined.

(** X16 on a sidecar whose only blob is a nil pointer. *)
Lemma VerifyBlobsSidecar_malformed_blob_run :
  outcome (PerBlob.VerifyBlobsSidecar (cst := Mainnet.constants)
             (col := Stub.collaborators) 7 (replicate 32 x00)
             [replicate 48 x00]
             (PointsTo {| PerBlob.BeaconBlockRoot := replicate 32 x00;
                          PerBlob.BeaconBlockSlot := 7;
                          PerBlob.Blobs := [Nil] |}))
  = Panicked NilDereference.
Proof.
  destruct (VerifyBlobsSidecar_malformed_blob (cst := Mainnet.constants)
              (col := Stub.collaborators) 7 (replicate 32 x00)
              [replicate 48 x00]
              {| PerBlob.BeaconBlockRoot := replicate 32 x00;
                 PerBlob.BeaconBlockSlot := 7;
                 PerBlob.Blobs := [Nil] |} 0 Nil)
    as [Hnil _]; [reflexivity.. | constructor |].
  by apply Hnil.
Defined.

(** X17 on a sidecar for slot 7 checked against slot 8, against another root
    and against one commitment. *)
Lemma VerifyBlobsSidecar_cheap_checks_run :
  PerBlob.VerifyBlobsSidecar (cst := Mainnet.constants)
    (col := Stub.collaborators) 8 (replicate 32 x01) [replicate 48 x00]
    (PointsTo {| PerBlob.BeaconBlockRoot := replicate 32 x00;
                 PerBlob.BeaconBlockSlot := 7;
                 PerBlob.Blobs := [] |})
  = mret (Some ErrInvalidBlobSlot)
  ∧ PerBlob.VerifyBlobsSidecar (cst := Mainnet.constants)
      (col := Stub.collaborators) 7 (replicate 32 x01) [replicate 48 x00]
      (PointsTo {| PerBlob.BeaconBlockRoot := replicate 32 x00;
                   PerBlob.BeaconBlockSlot := 7;
                   PerBlob.Blobs := [] |})
    = mret (Some ErrInvalidBlobBeaconBlockRoot)
  ∧ PerBlob.VerifyBlobsSidecar (cst := Mainnet.constants)
      (col := Stub.collaborators) 7 (replicate 32 x00) [replicate 48 x00]
      (PointsTo {| PerBlob.BeaconBlockRoot := replicate 32 x00;
                   PerBlob.BeaconBlockSlot := 7;
                   PerBlob.Blobs := [] |})
    = mret (Some ErrInvalidBlobsLength).
Proof.
  split; [| split].
  - apply (VerifyBlobsSidecar_cheap_checks (cst := Mainnet.constants)
             (col := Stub.collaborators)).
    vm_compute. discriminate.
  - apply (VerifyBlobsSidecar_cheap_checks (cst := Mainnet.constants)
             (col := Stub.collaborators)).
    + reflexivity.
    + vm_compute. discriminate.
  - apply (VerifyBlobsSidecar_cheap_checks (cst := Mainnet.constants)
             (col := Stub.collaborators)).
    + reflexivity.
    + reflexivity.
    + vm_compute. discriminate.
Defined.

(** ** Sidecar presence checks, in full *)

Section presence_more.
Context {col : Collaborators}.

(** X18. BlockContainsKZGs answers true exactly for a block of the
    blob-carrying versions whose commitment list is read without error and
    is not empty.  For an earlier version it answers false without an
    error, whatever the body accessor would return. *)
Theorem BlockContainsKZGs_true_iff (b : PerBlob.BeaconBlock) :
  (PerBlob.BlockContainsKZGs b = (true, None)
   ↔ IsPreEIP4844Version (PerBlob.Version b) = false
     ∧ ∃ kzgs, PerBlob.Body_BlobKzgs b = (kzgs, None) ∧ kzgs ≠ [])
  ∧ (IsPreEIP4844Version (PerBlob.Version b) = true →
     PerBlob.BlockContainsKZGs b = (false, None)).
Proof.
  unfold PerBlob.BlockContainsKZGs. split.
  - destruct (IsPreEIP4844Version _).
    + split; [done | by intros [? _]].
    + destruct (PerBlob.Body_BlobKzgs b) as [kzgs [err |]].
      * split; [done |]. by intros (_ & ? & ? & _).
      * split.
        -- intros [= Hne]. split; [done |]. exists kzgs. split; [done |].
           apply negb_true_iff, bool_decide_eq_false in Hne.
           by destruct kzgs.
        -- intros (_ & kzgs' & [= <-] & Hne). do 2 f_equal.
           apply negb_true_iff, bool_decide_eq_false. by destruct kzgs.
  - by intros ->.
Qed.

(** X19. BlockContainsSidecar answers true exactly when BlockContainsKZGs
    answers true for the block and the sidecar is fetched without error.  An
    error it returns is either the one of BlockContainsKZGs or a fetch error
    other than ErrNilSidecar; a missing sidecar is the answer false without
    an error. *)
Theorem BlockContainsSidecar_true_iff (b : PerBlob.SignedBeaconBlock) :
  (PerBlob.BlockContainsSidecar b = (true, None)
   ↔ PerBlob.BlockContainsKZGs (PerBlob.Block b) = (true, None)
     ∧ (PerBlob.SideCar b).2 = None)
  ∧ (∀ ok err,
       PerBlob.BlockContainsSidecar b = (ok, Some err) →
       (PerBlob.BlockContainsKZGs (PerBlob.Block b)).2 = Some err
       ∨ ((PerBlob.SideCar b).2 = Some err ∧ is_ErrNilSidecar err = false))
  ∧ (∀ err,
       PerBlob.BlockContainsKZGs (PerBlob.Block b) = (true, None) →
       (PerBlob.SideCar b).2 = Some err → is_ErrNilSidecar err = true →
       PerBlob.BlockContainsSidecar b = (false, None)).
Proof.
  unfold PerBlob.BlockContainsSidecar.
  destruct (PerBlob.BlockContainsKZGs (PerBlob.Block b)) as [hasKzg [e |]].
  - split; [split; [done | by intros [? _]] |]. split.
    + intros ok err [= _ <-]. by left.
    + done.
  - destruct hasKzg; simpl.
    + destruct (PerBlob.SideCar b) as [sc [e |]]; simpl.
      * destruct (is_ErrNilSidecar e) eqn:Hnil.
        -- split; [split; [done | by intros [_ ?]] |]. split; [done |].
           done.
        -- split; [split; [done | by intros [_ ?]] |]. split.
           ++ intros ok err [= _ <-]. by right.
           ++ intros err _ [= <-] Hnil'. congruence.
      * split; [done |]. split; done.
    + split; [split; [done | by intros [? _]] |]. split; done.
Qed.

End presence_more.

(** X18 on a block of version 3 with one commitment. *)
Lemma BlockContainsKZGs_true_iff_run :
  PerBlob.BlockContainsKZGs (col := Stub.collaborators)
    {| PerBlob.Version := 3;
       PerBlob.Body_BlobKzgs := ([replicate 48 x00], None) |}
  = (true, None).
Proof.
  apply (BlockContainsKZGs_true_iff (col := Stub.collaborators)).
  split; [reflexivity |]. exists [replicate 48 x00]. split; [reflexivity | done].
Defined.

(** X19 on a signed block of version 3 with one commitment whose sidecar is
    missing. *)
Lemma BlockContainsSidecar_true_iff_run :
  PerBlob.BlockContainsSidecar (col := Stub.collaborators)
    {| PerBlob.Block :=
         {| PerBlob.Version := 3;
            PerBlob.Body_BlobKzgs := ([replicate 48 x00], None) |};
       PerBlob.SideCar := (Nil, Some (Foreign 404)) |}
  = (false, None).
Proof.
  destruct (BlockContainsSidecar_true_iff (col := Stub.collaborators)
    {| PerBlob.Block :=
         {| PerBlob.Version := 3;
            PerBlob.Body_BlobKzgs := ([replicate 48 x00], None) |};
       PerBlob.SideCar := (Nil, Some (Foreign 404)) |}) as (_ & _ & Hnil).
  apply (Hnil (Foreign 404)); reflexivity.
Defined.

(** ** The per-blob verifier and the commitments of the blobs *)

Lemma field_element_copy (b : list byte) :
  copy (replicate 32 x00) b = field_element b.
Proof. apply copy_into_zeros. Qed.

Lemma field_element_exact (b : list byte) : length b = 32 → field_element b = b.
Proof. intros Hb. rewrite <- field_element_copy. by apply copy_exact. Qed.

Lemma field_elements_exact (n : nat) (chunks : list (list byte)) :
  length chunks = n → Forall (λ b, length b = 32) chunks →
  field_elements n chunks = chunks.
Proof.
  intros Hn Hall. unfold field_elements. rewrite Hn, Nat.sub_diag. simpl.
  rewrite app_nil_r. clear Hn.
  induction Hall as [| b bs Hb _ IH]; [done |].
  rewrite fmap_cons, IH. by rewrite field_element_exact.
Qed.

Section commitments_facts.
Context {cst : Constants} {col : Collaborators}.

#[local] Abbreviation N := FieldElementsPerBlob.

(** The blob the verifier builds is the list of the blob's field elements. *)
Lemma decode_blob_field_elements (chunks : list (list byte)) :
  length chunks ≤ N →
  PerBlob.decode_blob chunks = mret (field_elements N chunks).
Proof.
  intros Hlen. unfold PerBlob.decode_blob.
  match goal with |- context [for_loop ?n 0 ?body ?s] =>
    destruct (for_loop_pure (R := Empty_set)
      (λ k blob, blob = (field_element <$> take k chunks)
                        ++ replicate (N - k) (replicate 32 x00))
      n body 0 s) as (blob & Hrun & Hblob)
  end.
  - rewrite take_0, Nat.sub_0_r. done.
  - intros k blob Hk ->.
    destruct (lookup_lt_is_Some_2 chunks k) as [b Hkb]; [lia |].
    assert (length (field_element <$> take k chunks) = k) as Hpre
      by (rewrite length_fmap, length_take; lia).
    exists ((field_element <$> take (Datatypes.S k) chunks)
            ++ replicate (N - Datatypes.S k) (replicate 32 x00)).
    split; [| done].
    unfold PerBlob.decode_chunk.
    rewrite (index_Some _ _ _ Hkb), bind_ret, store_lt
      by (rewrite length_app, Hpre, length_replicate; lia).
    rewrite bind_ret. do 2 f_equal.
    rewrite insert_app_r_alt by lia. rewrite Hpre, Nat.sub_diag.
    rewrite (take_S_r _ _ _ Hkb), fmap_app, <- app_assoc. f_equal.
    destruct (N - k) as [| left_] eqn:Hleft; [lia |].
    replace (N - Datatypes.S k) with left_ by lia.
    simpl. by rewrite field_element_copy.
  - rewrite Hrun, bind_ret. simpl finish. f_equal. rewrite Hblob.
    unfold field_elements. by rewrite Nat.add_0_l, take_ge by lia.
Qed.

(** A recomputation ends normally exactly when the blob has a recomputed
    commitment, and then with that commitment. *)
Lemma blob_to_kzg_recomputed (p : pointer PerBlob.Blob) (c : list byte * bool) :
  outcome (PerBlob.blob_to_kzg p) = Done c ↔ recomputed_commitment p = Some c.
Proof.
  unfold PerBlob.blob_to_kzg, recomputed_commitment.
  destruct p as [| msg]; [done |].
  unfold deref. rewrite bind_ret.
  destruct (decide (length (PerBlob.Blob_ msg) ≤ N)) as [Hle | Hgt].
  - rewrite (decode_blob_field_elements _ Hle), bind_ret. simpl.
    split; congruence.
  - rewrite outcome_bind, decode_blob_long by lia. done.
Qed.

Lemma Forall2_recomputed (blobs : list (pointer PerBlob.Blob))
    (expected : list (list byte)) :
  Forall2 (λ p e, outcome (PerBlob.blob_to_kzg p) = Done (e, true)) blobs expected
  ↔ Forall2 (λ p e, recomputed_commitment p = Some (e, true)) blobs expected.
Proof.
  split; apply Forall2_impl; intros p e; apply blob_to_kzg_recomputed.
Qed.

(** C8. Past the slot, root and length checks, the per-blob verifier
    succeeds exactly when every blob's own recomputed commitment, the one
    ComputeCommitment answers on the field elements of that blob, is
    computed and equals the expected commitment at its index byte for byte.
    At the first index where that fails it returns ErrMissmatchKzgs when the
    recomputed commitment differs and ErrCouldNotComputeCommitment when the
    computation failed.  For a blob of exactly FieldElementsPerBlob chunks
    of 32 bytes the field elements are the chunks themselves. *)
Theorem VerifyBlobsSidecar_commitments (slot : Z) (root : list byte)
    (expected : list (list byte)) (sc : PerBlob.BlobsSidecar) :
  slot = PerBlob.BeaconBlockSlot sc →
  root = bytesutil.ToBytes32 (PerBlob.BeaconBlockRoot sc) →
  length expected = length (PerBlob.Blobs sc) →
  (outcome (PerBlob.VerifyBlobsSidecar slot root expected (PointsTo sc)) = Done None
   ↔ Forall2 (λ p e, recomputed_commitment p = Some (e, true))
       (PerBlob.Blobs sc) expected)
  ∧ (∀ i p e,
       PerBlob.Blobs sc !! i = Some p → expected !! i = Some e →
       Forall2 (λ p e, recomputed_commitment p = Some (e, true))
         (take i (PerBlob.Blobs sc)) (take i expected) →
       (∀ kzg, recomputed_commitment p = Some (kzg, true) → kzg ≠ e →
               outcome (PerBlob.VerifyBlobsSidecar slot root expected (PointsTo sc))
               = Done (Some ErrMissmatchKzgs))
       ∧ (∀ kzg, recomputed_commitment p = Some (kzg, false) →
                 outcome (PerBlob.VerifyBlobsSidecar slot root expected
                            (PointsTo sc))
                 = Done (Some ErrCouldNotComputeCommitment)))
  ∧ (∀ msg,
       length (PerBlob.Blob_ msg) = N →
       Forall (λ b, length b = 32) (PerBlob.Blob_ msg) →
       recomputed_commitment (PointsTo msg)
       = Some (ComputeCommitment (PerBlob.Blob_ msg))).
Proof.
  intros Hslot Hroot Hlen.
  destruct (VerifyBlobsSidecar_by_rounds slot root expected sc Hslot Hroot Hlen)
    as [Hall Hfirst].
  split; [| split].
  - rewrite Hall. apply Forall2_recomputed.
  - intros i p e Hp He Hbefore.
    apply Forall2_recomputed in Hbefore.
    destruct (Hfirst i p e Hp He Hbefore) as [Hdiff Hfail]. split.
    + intros kzg Hkzg. apply Hdiff. by apply blob_to_kzg_recomputed.
    + intros kzg Hkzg. apply (Hfail kzg). by apply blob_to_kzg_recomputed.
  - intros msg Hn H32. unfold recomputed_commitment.
    rewrite decide_True by lia. by rewrite field_elements_exact.
Qed.

End commitments_facts.

(** C8 on a sidecar of two blobs: the first has one chunk of two bytes and
    recomputes to its expected commitment, the second does not. *)
Lemma VerifyBlobsSidecar_commitments_run :
  outcome (PerBlob.VerifyBlobsSidecar (cst := Mainnet.constants)
             (col := Stub.collaborators) 7 (replicate 32 x00)
             [[x01; x02] ++ replicate 46 x00; replicate 48 x00]
             (PointsTo {| PerBlob.BeaconBlockRoot := replicate 32 x00;
                          PerBlob.BeaconBlockSlot := 7;
                          PerBlob.Blobs :=
                            [PointsTo {| PerBlob.Blob_ := [[x01; x02]] |};
                             PointsTo {| PerBlob.Blob_ := [[x03]] |}] |}))
  = Done (Some ErrMissmatchKzgs).
Proof.
  destruct (VerifyBlobsSidecar_commitments (cst := Mainnet.constants)
              (col := Stub.collaborators) 7 (replicate 32 x00)
              [[x01; x02] ++ replicate 46 x00; replicate 48 x00]
              {| PerBlob.BeaconBlockRoot := replicate 32 x00;
                 PerBlob.BeaconBlockSlot := 7;
                 PerBlob.Blobs :=
                   [PointsTo {| PerBlob.Blob_ := [[x01; x02]] |};
                    PointsTo {| PerBlob.Blob_ := [[x03]] |}] |})
    as (_ & Hfirst & _); [reflexivity.. |].
  destruct (Hfirst 1 (PointsTo {| PerBlob.Blob_ := [[x03]] |}) (replicate 48 x00))
    as [Hdiff _].
  - reflexivity.
  - reflexivity.
  - constructor; [vm_compute; reflexivity | constructor].
  - apply (Hdiff ([x03] ++ replicate 47 x00)).
    + vm_compute. reflexivity.
    + vm_compute. discriminate.
Defined.
